(** * Air Drum Kit: a shallow embedding of [main.py] and its verification

    The program turns the motion of a blue object seen by a webcam into drum
    triggers.  This development embeds the per-frame pipeline of the play
    state (noise filter, centroid, zone containment, debounced triggering),
    the zone registry, the keyboard driven application loop and the image
    loader with its placeholder fallback.

    Conventions of the embedding:
    - Python [int] is [Z]; [//] with a positive divisor is [Z.div].
    - The float returned by [cv2.contourArea] is a rational [Q].
    - Python dicts whose order is observed ([drum_zones], iterated by the
      loops) are association lists; dicts used as maps ([sound_is_locked],
      [drums_being_hit], [drum_sounds]) are [gmap string _].
    - A subscript read [d[k]] raises [KeyError] on a missing key; raising is
      modelled by the [result] monad.
    - Calls into OpenCV, NumPy and the mixer are kept as events or as an
      interface ([OpenCV]); pixel contents are symbolic. *)

From Stdlib Require Import ZArith QArith Lia List Bool Ascii String Permutation.
From stdpp Require Import gmap strings list fin_maps.

Local Open Scope string_scope.
Local Open Scope list_scope.
Local Open Scope Z_scope.

(* ===================================================================== *)
(** ** Exceptions *)
(* ===================================================================== *)

Inductive exn : Type :=
| KeyError (key : string)
| IndexError
| ValueError
| CvError.

Inductive result (A : Type) : Type :=
| Ok (a : A)
| Raise (e : exn).

Arguments Ok {A} a.
Arguments Raise {A} e.

#[global] Instance result_ret : MRet result := fun A a => Ok a.

#[global] Instance result_bind : MBind result := fun A B f m =>
  match m with
  | Ok a => f a
  | Raise e => Raise e
  end.

(** [for x in xs: body], threading the mutated state, stopping at the first
    exception. *)
Fixpoint for_each {A S : Type} (xs : list A) (body : S -> A -> result S) (s : S)
  : result S :=
  match xs with
  | [] => Ok s
  | x :: xs' => s' ← body s x; for_each xs' body s'
  end.

(** [d[k]] in an expression. *)
Definition getitem {V : Type} (d : gmap string V) (k : string) : result V :=
  match d !! k with
  | Some v => Ok v
  | None => Raise (KeyError k)
  end.

(** [d[k] = v] on an insertion ordered dict: overwrite in place, or append. *)
Fixpoint dict_set {V : Type} (d : list (string * V)) (k : string) (v : V)
  : list (string * V) :=
  match d with
  | [] => [(k, v)]
  | (k', v') :: d' =>
      if String.eqb k' k then (k, v) :: d' else (k', v') :: dict_set d' k v
  end.

Definition keys {V : Type} (d : list (string * V)) : list string := map fst d.

(** [{k: v for k in ks}] *)
Definition dict_fromkeys {V : Type} (ks : list string) (v : V) : gmap string V :=
  foldl (fun d k => <[k := v]> d) ∅ ks.

(* ===================================================================== *)
(** ** Configuration and zone registry *)
(* ===================================================================== *)

Definition WINDOW_WIDTH : Z := 640.
Definition WINDOW_HEIGHT : Z := 480.

Inductive app_state : Type := STATE_MENU | STATE_PLAY.

(** The mixer samples, keyed by drum name (the value is the sample path). *)
Definition drum_sounds : gmap string string :=
  <["Crash" := "assets/Samples/crash-808.wav"]>
  (<["Tom2" := "assets/Samples/tom-rototom.wav"]>
  (<["Tom1" := "assets/Samples/tom-lofi.wav"]>
  (<["Hi-Hat" := "assets/Samples/hihat-808.wav"]>
  (<["Snare" := "assets/Samples/snare-808.wav"]>
  (<["Kick" := "assets/Samples/kick-808.wav"]> ∅))))).

Record zone_properties : Type := {
  box : Z * Z * Z * Z;
  strike_y : option Z;
  is_crash : bool
}.

Definition ZONE_HEIGHT : Z := 100.
Definition bottom_row_drums : list string :=
  ["Kick"; "Snare"; "Hi-Hat"; "Tom1"; "Tom2"].
Definition number_of_drums : Z := Z.of_nat (length bottom_row_drums).
Definition zone_width : Z := WINDOW_WIDTH / number_of_drums.

(** [enumerate(xs)] *)
Fixpoint enumerate_from {A : Type} (i : Z) (xs : list A) : list (Z * A) :=
  match xs with
  | [] => []
  | x :: xs' => (i, x) :: enumerate_from (i + 1) xs'
  end.

Definition bottom_row_zone (index : Z) : zone_properties :=
  let x_position := index * zone_width in
  let y_position := WINDOW_HEIGHT - ZONE_HEIGHT in
  {| box := (x_position, y_position, x_position + zone_width, WINDOW_HEIGHT);
     strike_y := None;
     is_crash := false |}.

Definition crash_cymbal_width : Z := WINDOW_WIDTH / 4.

Definition drum_zones : list (string * zone_properties) :=
  let bottom :=
    foldl (fun zones '(index, drum_name) =>
             dict_set zones drum_name (bottom_row_zone index))
          [] (enumerate_from 0 bottom_row_drums) in
  dict_set bottom "Crash"
    {| box := (0, 0, crash_cymbal_width, ZONE_HEIGHT);
       strike_y := None;
       is_crash := true |}.

(* ===================================================================== *)
(** ** Helper: rectangle containment *)
(* ===================================================================== *)

Definition is_point_inside_zone (point_x point_y : Z)
    (zone_boundaries : Z * Z * Z * Z) : bool :=
  let '(x1, y1, x2, y2) := zone_boundaries in
  ((x1 <=? point_x) && (point_x <=? x2)) && ((y1 <=? point_y) && (point_y <=? y2)).

(* ===================================================================== *)
(** ** Play state: one frame *)
(* ===================================================================== *)

(** What the program reads from a contour: [cv2.contourArea] and
    [cv2.boundingRect] [(x, y, w, h)]. *)
Record contour : Type := {
  contourArea : Q;
  boundingRect : Z * Z * Z * Z
}.

(** Python's [a > b] on the area. *)
Definition Qgtb (a b : Q) : bool := negb (Qle_bool a b).

(** The mutable variables of one play frame, with the two observable event
    logs: the samples started ([.play()]) and the tracking circles drawn. *)
Record frame_state : Type := {
  drums_being_hit : gmap string bool;
  sound_is_locked : gmap string bool;
  played : list string;
  circles : list (Z * Z)
}.

(** Body of [for drum_name, zone_properties in drum_zones.items()]. *)
Definition check_zone (center_x center_y : Z) (st : frame_state)
    (entry : string * zone_properties) : result frame_state :=
  let '(drum_name, zone_props) := entry in
  let zone_boundaries := box zone_props in
  if is_point_inside_zone center_x center_y zone_boundaries then
    let hit := <[drum_name := true]> (drums_being_hit st) in
    locked ← getitem (sound_is_locked st) drum_name;
    if negb locked then
      _ ← getitem drum_sounds drum_name;
      Ok {| drums_being_hit := hit;
            sound_is_locked := <[drum_name := true]> (sound_is_locked st);
            played := played st ++ [drum_name];
            circles := circles st |}
    else
      Ok {| drums_being_hit := hit;
            sound_is_locked := sound_is_locked st;
            played := played st;
            circles := circles st |}
  else Ok st.

(** Center of the bounding rectangle. *)
Definition centroid (c : contour) : Z * Z :=
  let '(x, y, w, h) := boundingRect c in
  (x + w / 2, y + h / 2).

(** Body of [for contour in detected_contours]. *)
Definition process_contour (st : frame_state) (c : contour) : result frame_state :=
  let contour_area := contourArea c in
  if Qgtb contour_area 500 then
    let '(center_x, center_y) := centroid c in
    let st1 := {| drums_being_hit := drums_being_hit st;
                  sound_is_locked := sound_is_locked st;
                  played := played st;
                  circles := circles st ++ [(center_x, center_y)] |} in
    for_each drum_zones (check_zone center_x center_y) st1
  else Ok st.

(** Body of the reset loop [for drum_name in drum_zones]. *)
Definition reset_lock (st : frame_state) (drum_name : string) : result frame_state :=
  hit ← getitem (drums_being_hit st) drum_name;
  if negb hit then
    Ok {| drums_being_hit := drums_being_hit st;
          sound_is_locked := <[drum_name := false]> (sound_is_locked st);
          played := played st;
          circles := circles st |}
  else Ok st.

(** The tracking part of the play branch, from the contours found in the
    frame and the lock flags left by the previous frame. *)
Definition play_frame (locks : gmap string bool) (detected_contours : list contour)
  : result frame_state :=
  let st0 := {| drums_being_hit := dict_fromkeys (keys drum_zones) false;
                sound_is_locked := locks;
                played := [];
                circles := [] |} in
  st1 ← for_each detected_contours process_contour st0;
  for_each (keys drum_zones) reset_lock st1.

(** [sound_is_locked = {drum_name: False for drum_name in drum_zones}] *)
Definition initial_locks : gmap string bool := dict_fromkeys (keys drum_zones) false.

(** Consecutive play frames: the state after each frame, oldest first. *)
Fixpoint play_frames (locks : gmap string bool) (frames : list (list contour))
  : result (list frame_state) :=
  match frames with
  | [] => Ok []
  | f :: frames' =>
      st ← play_frame locks f;
      rest ← play_frames (sound_is_locked st) frames';
      Ok (st :: rest)
  end.

(* ===================================================================== *)
(** ** Image loading *)
(* ===================================================================== *)

(** Pixel contents, kept symbolic. *)
Inductive pixels : Type :=
| Decoded (file_path : string)
| Resized (p : pixels) (dsize : Z * Z)
| Bgra2Bgr (p : pixels)
| Zeros
| Text (p : pixels) (text : string) (org : Z * Z).

(** A NumPy array: its [shape] tuple and its contents. *)
Record ndarray : Type := {
  shape : list Z;
  data : pixels
}.

(** The OpenCV calls of the loader.  [imread] is [None] for a file that
    cannot be read or decoded. *)
Class OpenCV : Type := {
  imread : string -> result (option ndarray);
  resize : ndarray -> Z * Z -> result ndarray;
  cvtColor_BGRA2BGR : ndarray -> result ndarray;
  putText : ndarray -> string -> Z * Z -> result ndarray
}.

(** What the loader relies on: an image resized to [(w, h)] has shape
    [(h, w)] or [(h, w, c)]; dropping the alpha channel leaves three
    channels; drawing text succeeds and keeps the shape. *)
Definition OpenCV_contract (cv : OpenCV) : Prop :=
  (forall img w h img', resize img (w, h) = Ok img' ->
     shape img' = [h; w] \/ exists c, shape img' = [h; w; c]) /\
  (forall img img', cvtColor_BGRA2BGR img = Ok img' ->
     shape img' = take 2 (shape img) ++ [3]) /\
  (forall img text org, exists img',
     putText img text org = Ok img' /\ shape img' = shape img).

(** [np.zeros(shape, dtype=np.uint8)]: negative dimensions are not allowed. *)
Definition np_zeros (dims : list Z) : result ndarray :=
  if forallb (fun n => 0 <=? n) dims
  then Ok {| shape := dims; data := Zeros |}
  else Raise ValueError.

(** [img.shape[i]] *)
Definition shape_at (img : ndarray) (i : nat) : result Z :=
  match shape img !! i with
  | Some n => Ok n
  | None => Raise IndexError
  end.

(** The [try] block: [Some img] when it returns, [None] when control falls
    out of it. *)
Definition try_load_drum_image `{OpenCV} (file_path : string)
    (target_width target_height : Z) : result (option ndarray) :=
  loaded_image ← imread file_path;
  match loaded_image with
  | Some loaded_image =>
      loaded_image ← resize loaded_image (target_width, target_height);
      channels ← shape_at loaded_image 2;
      loaded_image ← (if channels =? 4
                      then cvtColor_BGRA2BGR loaded_image
                      else Ok loaded_image);
      channels ← shape_at loaded_image 2;
      if channels =? 3 then Ok (Some loaded_image) else Ok None
  | None => Ok None
  end.

(** The fallback built after the [try] statement. *)
Definition make_placeholder `{OpenCV} (target_width target_height : Z)
  : result ndarray :=
  placeholder ← np_zeros [target_height; target_width; 3];
  putText placeholder "NO IMAGE" (target_width / 2 - 50, target_height / 2 + 5).

(** [except Exception] swallows whatever the [try] block raised (after
    printing it) and control continues with the placeholder. *)
Definition load_drum_image `{OpenCV} (file_path : string)
    (target_width target_height : Z) : result ndarray :=
  match try_load_drum_image file_path target_width target_height with
  | Ok (Some loaded_image) => Ok loaded_image
  | Ok None | Raise _ => make_placeholder target_width target_height
  end.

(** A reference behaviour of the three image operations, on symbolic
    pixels: [resize] rejects an empty target size and keeps at most one
    channel dimension. *)
Definition model_resize (img : ndarray) (dsize : Z * Z) : result ndarray :=
  let '(w, h) := dsize in
  if (0 <? w) && (0 <? h)
  then Ok {| shape := h :: w :: take 1 (drop 2 (shape img));
             data := Resized (data img) (w, h) |}
  else Raise CvError.

Definition model_cvtColor_BGRA2BGR (img : ndarray) : result ndarray :=
  Ok {| shape := take 2 (shape img) ++ [3]; data := Bgra2Bgr (data img) |}.

Definition model_putText (img : ndarray) (text : string) (org : Z * Z)
  : result ndarray :=
  Ok {| shape := shape img; data := Text (data img) text org |}.

(** A machine whose disk holds no readable image. *)
Definition unreadable_disk : OpenCV :=
  {| imread := fun _ => Ok None;
     resize := model_resize;
     cvtColor_BGRA2BGR := model_cvtColor_BGRA2BGR;
     putText := model_putText |}.

(** A machine on which every path decodes to a 300 x 200 image with an
    alpha channel. *)
Definition bgra_disk : OpenCV :=
  {| imread := fun p => Ok (Some {| shape := [200; 300; 4]; data := Decoded p |});
     resize := model_resize;
     cvtColor_BGRA2BGR := model_cvtColor_BGRA2BGR;
     putText := model_putText |}.

(* ===================================================================== *)
(** ** Rendering and asset loading around the play frame *)
(* ===================================================================== *)

(** The drawing calls issued on a frame, in order.  Colors are BGR. *)
Inductive draw_call : Type :=
| Rectangle (pt1 pt2 : Z * Z) (color : Z * Z * Z) (thickness : Z)
| PutText (text : string) (org : Z * Z) (font_scale : Q) (color : Z * Z * Z)
          (thickness : Z)
| Circle (center : Z * Z) (radius : Z) (color : Z * Z * Z) (thickness : Z)
| Paste (x_start y_start : Z) (image : ndarray) (tinted : bool).

(** A video frame: the shape of its array and what was drawn on it. *)
Record canvas : Type := {
  canvas_shape : list Z;
  calls : list draw_call
}.

Definition draw (frame : canvas) (c : draw_call) : canvas :=
  {| canvas_shape := canvas_shape frame; calls := calls frame ++ [c] |}.

(** One bound of a slice [a[start:stop]] on an axis of length [n], resolved
    as Python does: a negative bound counts from the end, and the result is
    clipped to [0, n]. *)
Definition slice_index (n i : Z) : Z :=
  if i <? 0 then Z.max 0 (i + n) else Z.min i n.

Definition slice_length (n start stop : Z) : Z :=
  Z.max 0 (slice_index n stop - slice_index n start).

(** NumPy's rule for [dst[:] = src], on the shapes read from the last axis
    backwards: an axis of [src] must have the length of the axis of [dst] it
    meets, or length 1; axes of [src] beyond those of [dst] must have
    length 1. *)
Fixpoint broadcast_rev (src dst : list Z) : bool :=
  match src, dst with
  | [], _ => true
  | s :: src', d :: dst' => ((s =? d) || (s =? 1)) && broadcast_rev src' dst'
  | s :: src', [] => (s =? 1) && broadcast_rev src' []
  end.

Definition broadcastable (src dst : list Z) : bool :=
  broadcast_rev (rev src) (rev dst).

(** Shape of [main_frame[y0:y1, x0:x1]]. *)
Definition region_shape (frame_shape : list Z) (y0 y1 x0 x1 : Z)
  : result (list Z) :=
  match frame_shape with
  | frame_rows :: frame_cols :: rest =>
      Ok (slice_length frame_rows y0 y1 :: slice_length frame_cols x0 x1 :: rest)
  | _ => Raise IndexError
  end.

Definition overlay_drum_image_on_frame (main_frame : canvas) (drum_image : ndarray)
    (x_start y_start : Z) (is_being_hit : bool) : result canvas :=
  match shape drum_image with
  | [img_height; img_width; _] =>
      region_of_interest ←
        region_shape (canvas_shape main_frame)
                     y_start (y_start + img_height) x_start (x_start + img_width);
      if is_being_hit then
        (* red_overlay[:, :] = (0, 0, 255), then the blend has the image's shape *)
        if broadcastable [3] (shape drum_image) then
          if broadcastable (shape drum_image) region_of_interest
          then Ok (draw main_frame (Paste x_start y_start drum_image true))
          else Raise ValueError
        else Raise ValueError
      else
        if broadcastable (shape drum_image) region_of_interest
        then Ok (draw main_frame (Paste x_start y_start drum_image false))
        else Raise ValueError
  | _ => Raise ValueError
  end.

(** Body of the loop of [render_drum_kit_interface]; [text_width_of] stands
    for the width that [cv2.getTextSize] reports for a label at scale 1,
    thickness 2. *)
Definition render_pad (text_width_of : string -> Z)
    (drum_images : gmap string ndarray) (locks : gmap string bool)
    (frame : canvas) (entry : string * zone_properties) : result canvas :=
  let '(drum_name, zone_props) := entry in
  let '(x1, y1, x2, y2) := box zone_props in
  current_drum_image ← getitem drum_images drum_name;
  is_currently_hit ← getitem locks drum_name;
  frame ← overlay_drum_image_on_frame frame current_drum_image x1 y1 is_currently_hit;
  let text_width := text_width_of drum_name in
  let center_x := x1 + (x2 - x1) / 2 in
  let center_y := y1 + (y2 - y1) / 2 in
  let text_color :=
    if is_currently_hit : bool then (0, 0, 0) else (0, 0, 255) in
  let text_position :=
    if negb (String.eqb drum_name "Crash") then center_y - 30 else center_y + 30 in
  Ok (draw frame (PutText drum_name (center_x - text_width / 2, text_position)
                          1 text_color 2)).

(** Every pad is pasted and labelled, then the instruction line is written.
    [drum_images] and [sound_is_locked] are globals of the program; they are
    arguments here. *)
Definition render_drum_kit_interface (text_width_of : string -> Z)
    (drum_images : gmap string ndarray) (locks : gmap string bool)
    (frame : canvas) : result canvas :=
  frame ← for_each drum_zones (render_pad text_width_of drum_images locks) frame;
  Ok (draw frame (PutText "Press 'B' for Menu" (10, 20) (1 # 2) (255, 255, 255) 2)).

Definition drum_image_paths : gmap string string :=
  <["Crash" := "assets/images/crash_cymbal.png"]>
  (<["Tom2" := "assets/images/tom.png"]>
  (<["Tom1" := "assets/images/tom.png"]>
  (<["Hi-Hat" := "assets/images/hi_hat.png"]>
  (<["Snare" := "assets/images/snare_drum.png"]>
  (<["Kick" := "assets/images/kick_drum.png"]> ∅))))).

(** The loop that fills [drum_images] at startup. *)
Definition preload_drum_images `{OpenCV} : result (gmap string ndarray) :=
  for_each drum_zones
    (fun (drum_images : gmap string ndarray) '(drum_name, zone_props) =>
       let '(x1, y1, x2, y2) := box zone_props in
       let width := x2 - x1 in
       let height := y2 - y1 in
       file_path ← getitem drum_image_paths drum_name;
       image ← load_drum_image file_path width height;
       Ok (<[drum_name := image]> drum_images))
    ∅.

(** [menu_buttons]: corners, label and action code of each button. *)
Definition menu_buttons : list (string * (Z * Z * Z * Z * string * Z)) :=
  [ ("PLAY", (WINDOW_WIDTH / 2 - 150, WINDOW_HEIGHT / 2 - 100,
              WINDOW_WIDTH / 2 + 150, WINDOW_HEIGHT / 2 - 30,
              "PLAY DRUMS (P)", 1));
    ("CREDITS", (WINDOW_WIDTH / 2 - 150, WINDOW_HEIGHT / 2 + 10,
                 WINDOW_WIDTH / 2 + 150, WINDOW_HEIGHT / 2 + 80,
                 "CREDITS (C)", -1));
    ("EXIT", (WINDOW_WIDTH / 2 - 150, WINDOW_HEIGHT / 2 + 120,
              WINDOW_WIDTH / 2 + 150, WINDOW_HEIGHT / 2 + 190,
              "EXIT (Q)", -2)) ].

(** Body of the button loop of [render_main_menu]. *)
Definition render_button (text_width_of : string -> Z) (frame : canvas)
    (button : string * (Z * Z * Z * Z * string * Z)) : canvas :=
  let '(button_key, (x1, y1, x2, y2, label, _)) := button in
  let button_color :=
    if String.eqb button_key "PLAY" then (0, 255, 0) else (255, 100, 0) in
  let frame := draw frame (Rectangle (x1, y1) (x2, y2) button_color (-1)) in
  let frame := draw frame (Rectangle (x1, y1) (x2, y2) (255, 255, 255) 3) in
  let text_width := text_width_of label in
  let text_x := x1 + (x2 - x1) / 2 - text_width / 2 in
  draw frame (PutText label (text_x, y2 - 25) 1 (20, 20, 20) 2).

Definition render_main_menu (text_width_of : string -> Z) (frame : canvas) : canvas :=
  let frame :=
    draw frame (Rectangle (0, 0) (WINDOW_WIDTH, WINDOW_HEIGHT) (20, 20, 20) (-1)) in
  let frame :=
    draw frame (PutText "AIR DRUM KIT"
                        (WINDOW_WIDTH / 2 - 150, WINDOW_HEIGHT / 2 - 150)
                        (3 # 2) (0, 255, 255) 3) in
  foldl (render_button text_width_of) frame menu_buttons.

(* ===================================================================== *)
(** ** Main application loop *)
(* ===================================================================== *)

(** The process wide variables that the loop assigns. *)
Record app : Type := {
  current_app_state : app_state;
  showing_credits : bool;
  app_locks : gmap string bool
}.

(** What one iteration obtains from the outside: the flag and the frame of
    [webcam.read()] (a BGR array of [frame_rows] by [frame_cols] pixels,
    three channels), the contours that [cv2.findContours] extracts from the
    blue mask (read in the play state only) and the value returned by
    [cv2.waitKey(1)]. *)
Record iteration_input : Type := {
  frame_captured : bool;
  frame_rows : Z;
  frame_cols : Z;
  detected_contours : list contour;
  waitKey : Z
}.

Definition ord (c : ascii) : Z := Z.of_N (N_of_ascii c).

Inductive control : Type := Next | BreakLoop.

Definition set_menu (s : app) (credits : bool) : app :=
  {| current_app_state := current_app_state s;
     showing_credits := credits;
     app_locks := app_locks s |}.

(** The tracking marker of a detected object. *)
Definition circle_call (center : Z * Z) : draw_call :=
  Circle center 5 (255, 0, 0) (-1).

(** One pass through the body of [while True]; the third component is the
    list of samples started during the pass.  In the menu the frame is only
    drawn on ([render_main_menu], [render_credits_screen]); in the play state
    the pads are pasted into it by [render_drum_kit_interface], which can
    raise. *)
Definition loop_body (text_width_of : string -> Z)
    (drum_images : gmap string ndarray) (s : app) (i : iteration_input)
  : result (control * app * list string) :=
  if negb (frame_captured i) then Ok (BreakLoop, s, [])
  else
    match current_app_state s with
    | STATE_MENU =>
        let key_pressed := Z.land (waitKey i) 255 in
        if key_pressed =? ord "p"%char then
          Ok (Next, {| current_app_state := STATE_PLAY;
                       showing_credits := false;
                       app_locks := app_locks s |}, [])
        else if key_pressed =? ord "c"%char then Ok (Next, set_menu s true, [])
        else if key_pressed =? ord "b"%char then Ok (Next, set_menu s false, [])
        else if key_pressed =? ord "q"%char then Ok (BreakLoop, s, [])
        else Ok (Next, s, [])
    | STATE_PLAY =>
        st ← play_frame (app_locks s) (detected_contours i);
        let video_frame :=
          {| canvas_shape := [frame_rows i; frame_cols i; 3];
             calls := map circle_call (circles st) |} in
        _ ← render_drum_kit_interface text_width_of drum_images
              (sound_is_locked st) video_frame;
        let s1 := {| current_app_state := current_app_state s;
                     showing_credits := showing_credits s;
                     app_locks := sound_is_locked st |} in
        let key_pressed := Z.land (waitKey i) 255 in
        if key_pressed =? ord "b"%char then
          Ok (Next, {| current_app_state := STATE_MENU;
                       showing_credits := false;
                       app_locks := sound_is_locked st |}, played st)
        else if key_pressed =? ord "q"%char then Ok (BreakLoop, s1, played st)
        else Ok (Next, s1, played st)
    end.

Definition initial_app : app :=
  {| current_app_state := STATE_MENU;
     showing_credits := false;
     app_locks := initial_locks |}.

(** How far a run over finitely many iterations got: the inputs ran out with
    the loop still going, or the loop was left during iteration
    [iterations] (counted from 0). *)
Inductive loop_status : Type :=
| StillRunning (s : app)
| Exited (s : app) (iterations : nat).

Fixpoint main_loop (text_width_of : string -> Z)
    (drum_images : gmap string ndarray) (s : app) (inputs : list iteration_input)
  : result loop_status :=
  match inputs with
  | [] => Ok (StillRunning s)
  | i :: inputs' =>
      r ← loop_body text_width_of drum_images s i;
      match r with
      | (BreakLoop, s', _) => Ok (Exited s' 0)
      | (Next, s', _) =>
          status ← main_loop text_width_of drum_images s' inputs';
          match status with
          | StillRunning sf => Ok (StillRunning sf)
          | Exited sf n => Ok (Exited sf (S n))
          end
      end
  end.


(* ===================================================================== *)
(** ** The two-phase reading of the pipeline *)
(* ===================================================================== *)

(** The design document describes the play frame as two components run one
    after the other: a hit resolver computing the whole hit map, then one
    debouncer per zone.  [TwoPhase] follows that description; it is compared
    with [play_frame] below. *)
Module TwoPhase.

(** Closed rectangle, inclusive on all four edges. *)
Definition in_closed_rectangle (p : Z * Z) (bounds : Z * Z * Z * Z) : bool :=
  let '(px, py) := p in
  let '(x1, y1, x2, y2) := bounds in
  bool_decide (x1 <= px <= x2 /\ y1 <= py <= y2).

(** Hit resolver: a zone is hit iff some object's centroid is in it. *)
Definition hit_state (objects : list (Z * Z)) : gmap string bool :=
  foldl (fun hits '(name, zone) =>
           <[name := existsb (fun p => in_closed_rectangle p (box zone)) objects]> hits)
        ∅ drum_zones.

(** Debouncer transition for one zone: new lock and whether a trigger is
    emitted.  [false] is Idle, [true] is Locked. *)
Definition debounce (locked hit : bool) : bool * bool :=
  match locked, hit with
  | false, true => (true, true)
  | true, true => (true, false)
  | _, false => (false, false)
  end.

Definition debounce_zone (hits : gmap string bool)
    (acc : gmap string bool * list string) (name : string)
  : gmap string bool * list string :=
  let '(locks, triggers) := acc in
  let '(locked', emit) :=
    debounce (default false (locks !! name)) (default false (hits !! name)) in
  (<[name := locked']> locks, if emit then triggers ++ [name] else triggers).

(** One frame: final locks, emitted triggers, hit map. *)
Definition frame (locks : gmap string bool) (objects : list (Z * Z))
  : gmap string bool * list string * gmap string bool :=
  let hits := hit_state objects in
  let '(locks', triggers) := foldl (debounce_zone hits) (locks, []) (keys drum_zones) in
  (locks', triggers, hits).

End TwoPhase.

(* ===================================================================== *)
(** ** Vocabulary of the statements *)
(* ===================================================================== *)

(** The lock flags cover every drum pad. *)
Definition locks_cover_zones (locks : gmap string bool) : Prop :=
  forall name, name ∈ keys drum_zones -> is_Some (locks !! name).

(** Some zone called [name] in [zones] contains the point [p]. *)
Definition zone_contains (zones : list (string * zone_properties))
    (name : string) (p : Z * Z) : bool :=
  existsb (fun e => bool_decide (fst e = name)
                    && is_point_inside_zone (fst p) (snd p) (box (snd e))) zones.

(** The contour passes the noise filter and its centroid is in the zone
    called [name]. *)
Definition object_hits (name : string) (c : contour) : bool :=
  Qgtb (contourArea c) 500 && zone_contains drum_zones name (centroid c).

(** Hit flag of a zone at the end of a frame. *)
Definition is_hit (st : frame_state) (name : string) : bool :=
  bool_decide (drums_being_hit st !! name = Some true).

(** Number of times the sample of [name] was started. *)
Definition triggers_of (name : string) (sounds : list string) : nat :=
  count_occ String.string_dec sounds name.




(** The contours that survive the noise filter, as centroids. *)
Definition detected_objects (cs : list contour) : list (Z * Z) :=
  map centroid (filter (fun c => Qgtb (contourArea c) 500 = true) cs).

(** [advances hits st st']: between [st] and [st'] exactly the zones selected
    by [hits] were found hit.  Such a zone ends up flagged and locked, and
    its sample was started once if it was not locked before; nothing else
    changes. *)
Definition advances (hits : string -> bool) (st st' : frame_state) : Prop :=
  forall k,
    drums_being_hit st' !! k
      = (if hits k then Some true else drums_being_hit st !! k) /\
    sound_is_locked st' !! k
      = (if hits k then Some true else sound_is_locked st !! k) /\
    triggers_of k (played st')
      = (triggers_of k (played st)
         + (if hits k && bool_decide (sound_is_locked st !! k = Some false)
            then 1 else 0))%nat.

(** What a finished run over finitely many iterations left behind. *)
Definition final_state (status : loop_status) : app :=
  match status with
  | StillRunning s => s
  | Exited s _ => s
  end.

(** An iteration that makes the loop stop. *)
Definition stops_loop (i : iteration_input) : Prop :=
  frame_captured i = false \/ Z.land (waitKey i) 255 = ord "q".

(** Between [st] and [st'] the lock table has kept its keys, the hit table
    has lost none and no flag went back from set, and a flag newly set
    belongs to a key of the lock table. *)
Definition keeps_tables (st st' : frame_state) : Prop :=
  (forall k, is_Some (sound_is_locked st' !! k) <-> is_Some (sound_is_locked st !! k))
  /\ (forall k, is_Some (drums_being_hit st !! k) -> is_Some (drums_being_hit st' !! k))
  /\ (forall k, drums_being_hit st !! k = Some true ->
                drums_being_hit st' !! k = Some true)
  /\ (forall k, drums_being_hit st' !! k = Some true ->
                drums_being_hit st !! k = Some true
                \/ is_Some (sound_is_locked st !! k)).

(** How a loop body over items [x] may end when run in [st]: normally, with
    the tables kept and the flag of every zone that [x] touches set; or with
    the [KeyError] of a zone that [x] touches and the lock table lacks. *)
Definition ends_well {A : Type} (touches : A -> string -> Prop)
    (xs : list A) (st : frame_state) (r : result frame_state) : Prop :=
  match r with
  | Ok st' =>
      keeps_tables st st'
      /\ (forall x name, x ∈ xs -> touches x name ->
            drums_being_hit st' !! name = Some true)
  | Raise e =>
      exists x name,
        x ∈ xs /\ touches x name
        /\ e = KeyError name /\ sound_is_locked st !! name = None
  end.

(** The table of pad images holds, for every pad, a three channel image of
    the pad's height and width, as the startup loop leaves it. *)
Definition images_fit_pads (drum_images : gmap string ndarray) : Prop :=
  forall name zp, (name, zp) ∈ drum_zones ->
    exists img,
      drum_images !! name = Some img
      /\ (let '(x1, y1, x2, y2) := box zp in shape img = [y2 - y1; x2 - x1; 3]).

(** The captured frame is large enough to hold every pad. *)
Definition frame_fits (i : iteration_input) : Prop :=
  WINDOW_HEIGHT <= frame_rows i /\ WINDOW_WIDTH <= frame_cols i.

Definition frame_too_small (i : iteration_input) : Prop :=
  frame_rows i < WINDOW_HEIGHT \/ frame_cols i < WINDOW_WIDTH.

(** An iteration that neither stops the loop nor fails to read a frame. *)
Definition goes_on (i : iteration_input) : Prop :=
  frame_captured i = true /\ Z.land (waitKey i) 255 <> ord "q".

(** The credits flag is clear in the play state. *)
Definition credits_only_in_menu (s : app) : Prop :=
  current_app_state s = STATE_PLAY -> showing_credits s = false.

(* ===================================================================== *)
(** ** Basic facts *)
(* ===================================================================== *)

(** From [E : r = Ok v], replaces [v] in the goal by the value read off the
    computation [r], so that the goal can be evaluated. *)
Ltac evaluate_from E :=
  match type of E with
  | ?r = Ok ?v =>
      let H := fresh in
      assert (H : v = match r with Ok a => a | Raise _ => v end)
        by (rewrite E; reflexivity);
      rewrite H; clear H
  end.

(** Settles [bool_decide (k ∈ l)] from a hypothesis on the membership. *)
Ltac decide_membership :=
  repeat match goal with
  | |- context [@bool_decide (?k ∈ ?l) ?d] =>
      first [ rewrite (@bool_decide_eq_true_2 (k ∈ l) d) by done
            | rewrite (@bool_decide_eq_false_2 (k ∈ l) d) by done ]
  end.

(** Membership in a list given element by element. *)
Ltac list_member :=
  repeat first [ apply list_elem_of_here | apply list_elem_of_further ].

Lemma drum_zones_eq :
  drum_zones =
  [("Kick",   {| box := (0, 380, 128, 480);   strike_y := None; is_crash := false |});
   ("Snare",  {| box := (128, 380, 256, 480); strike_y := None; is_crash := false |});
   ("Hi-Hat", {| box := (256, 380, 384, 480); strike_y := None; is_crash := false |});
   ("Tom1",   {| box := (384, 380, 512, 480); strike_y := None; is_crash := false |});
   ("Tom2",   {| box := (512, 380, 640, 480); strike_y := None; is_crash := false |});
   ("Crash",  {| box := (0, 0, 160, 100);     strike_y := None; is_crash := true |})].
Proof. reflexivity. Qed.

Lemma keys_drum_zones :
  keys drum_zones = ["Kick"; "Snare"; "Hi-Hat"; "Tom1"; "Tom2"; "Crash"].
Proof. reflexivity. Qed.

Lemma zone_width_eq : zone_width = 128.
Proof. reflexivity. Qed.

Lemma is_point_inside_zone_iff px py x1 y1 x2 y2 :
  is_point_inside_zone px py (x1, y1, x2, y2) = true
  <-> (x1 <= px <= x2 /\ y1 <= py <= y2).
Proof.
  unfold is_point_inside_zone.
  rewrite !andb_true_iff, !Z.leb_le. tauto.
Qed.

Lemma Qgtb_true a b : Qgtb a b = true <-> (b < a)%Q.
Proof.
  unfold Qgtb. rewrite negb_true_iff. split.
  - intros Hle. apply Qnot_le_lt. intros Hab.
    apply Qle_bool_iff in Hab. congruence.
  - intros Hlt. destruct (Qle_bool a b) eqn:E; [|reflexivity].
    apply Qle_bool_iff in E. exfalso. exact (Qlt_not_le _ _ Hlt E).
Qed.

Lemma Qgtb_false a b : Qgtb a b = false <-> (a <= b)%Q.
Proof.
  unfold Qgtb. rewrite negb_false_iff. apply Qle_bool_iff.
Qed.

Lemma getitem_Some {V} (d : gmap string V) k v :
  d !! k = Some v -> getitem d k = Ok v.
Proof. intros H. unfold getitem. by rewrite H. Qed.

Lemma dict_fromkeys_lookup {V} (ks : list string) (v : V) k :
  dict_fromkeys ks v !! k = if bool_decide (k ∈ ks) then Some v else None.
Proof.
  unfold dict_fromkeys.
  assert (G : forall (d : gmap string V),
            foldl (fun d k => <[k := v]> d) d ks !! k
            = if bool_decide (k ∈ ks) then Some v else d !! k).
  { induction ks as [|a ks IH]; intros d; simpl.
    - reflexivity.
    - rewrite IH. destruct (decide (a = k)) as [->|Hne].
      + rewrite lookup_insert_eq.
        rewrite (bool_decide_eq_true_2 (k ∈ k :: ks)) by left.
        by case_bool_decide.
      + rewrite lookup_insert_ne by done.
        case_bool_decide as H1; case_bool_decide as H2; try done.
        * exfalso. apply H2. by right.
        * exfalso. apply elem_of_cons in H2 as [->|?]; done. }
  rewrite G. by rewrite lookup_empty.
Qed.

Lemma initial_locks_cover : locks_cover_zones initial_locks.
Proof.
  intros name Hin. unfold initial_locks.
  rewrite dict_fromkeys_lookup, bool_decide_eq_true_2 by done. eauto.
Qed.

Lemma initial_locks_lookup name :
  name ∈ keys drum_zones -> initial_locks !! name = Some false.
Proof.
  intros Hin. unfold initial_locks.
  by rewrite dict_fromkeys_lookup, bool_decide_eq_true_2.
Qed.

Lemma drum_sounds_cover name :
  name ∈ keys drum_zones -> is_Some (drum_sounds !! name).
Proof.
  rewrite keys_drum_zones. intros Hin.
  repeat (apply elem_of_cons in Hin as [->|Hin]; [by eexists|]).
  by apply elem_of_nil in Hin.
Qed.

(** A few runs of the definitions on concrete inputs. *)

Example no_key_pressed_is_255 : Z.land (-1) 255 = 255.
Proof. reflexivity. Qed.

Example modifier_bits_are_masked : Z.land 1048688 255 = ord "p".
Proof. reflexivity. Qed.

Example frame_with_object_on_snare :
  match play_frame initial_locks
          [ {| contourArea := 900; boundingRect := (180, 400, 30, 30) |} ] with
  | Ok st => (played st, circles st, sound_is_locked st !! "Snare")
  | Raise _ => ([], [], None)
  end = (["Snare"], [(195, 415)], Some true).
Proof. vm_compute. reflexivity. Qed.

Example held_object_plays_once :
  match play_frames initial_locks
          [ [ {| contourArea := 900; boundingRect := (180, 400, 30, 30) |} ];
            [ {| contourArea := 880; boundingRect := (182, 402, 30, 30) |} ];
            [ {| contourArea := 910; boundingRect := (181, 399, 30, 30) |} ] ] with
  | Ok sts => map played sts
  | Raise _ => []
  end = [["Snare"]; []; []].
Proof. vm_compute. reflexivity. Qed.

(* ===================================================================== *)
(** ** One frame, zone by zone *)
(* ===================================================================== *)

Lemma for_each_cons {A S} (x : A) xs (body : S -> A -> result S) s :
  for_each (x :: xs) body s = (s' ← body s x; for_each xs body s').
Proof. reflexivity. Qed.

Lemma bind_Ok {A B} (a : A) (f : A -> result B) : (x ← Ok a; f x) = f a.
Proof. reflexivity. Qed.

Lemma advances_refl st : advances (fun _ => false) st st.
Proof. intros k. simpl. repeat split; lia. Qed.

Lemma advances_ext hits hits' st st' :
  (forall k, hits k = hits' k) -> advances hits st st' -> advances hits' st st'.
Proof. intros E H k. rewrite <- E. apply H. Qed.

Lemma advances_trans h1 h2 st st1 st2 :
  advances h1 st st1 -> advances h2 st1 st2 ->
  advances (fun k => h1 k || h2 k) st st2.
Proof.
  intros H1 H2 k.
  destruct (H1 k) as (Ha & Hb & Hc), (H2 k) as (Ha' & Hb' & Hc').
  rewrite Ha', Hb', Hc', Ha, Hb, Hc.
  destruct (h1 k), (h2 k); simpl; repeat split; try lia.
  all: try rewrite (bool_decide_eq_false_2 (Some true = Some false)) by discriminate.
  all: lia.
Qed.

Lemma advances_cover hits st st' name :
  advances hits st st' ->
  is_Some (sound_is_locked st !! name) -> is_Some (sound_is_locked st' !! name).
Proof.
  intros H Hs. destruct (H name) as (_ & Hb & _). rewrite Hb.
  destruct (hits name); eauto.
Qed.

Lemma triggers_of_app k l1 l2 :
  triggers_of k (l1 ++ l2) = (triggers_of k l1 + triggers_of k l2)%nat.
Proof. unfold triggers_of. apply count_occ_app. Qed.

Lemma check_zone_advances cx cy st name zp :
  is_Some (sound_is_locked st !! name) ->
  is_Some (drum_sounds !! name) ->
  exists st',
    check_zone cx cy st (name, zp) = Ok st'
    /\ circles st' = circles st
    /\ advances (fun k => bool_decide (name = k)
                          && is_point_inside_zone cx cy (box zp)) st st'.
Proof.
  intros [locked Hl] [snd Hs]. unfold check_zone.
  destruct (is_point_inside_zone cx cy (box zp)) eqn:Hin.
  - rewrite (getitem_Some _ _ _ Hl). simpl.
    destruct locked; simpl.
    + eexists; split; [reflexivity|]. split; [reflexivity|].
      intros k; simpl. rewrite andb_true_r.
      case_bool_decide as Hk; simpl.
      * subst k. rewrite lookup_insert_eq, Hl.
        rewrite (bool_decide_eq_false_2 (Some true = Some false)) by discriminate.
        repeat split; lia.
      * rewrite lookup_insert_ne by done. repeat split; lia.
    + rewrite (getitem_Some _ _ _ Hs). simpl.
      eexists; split; [reflexivity|]. split; [reflexivity|].
      intros k; simpl. rewrite andb_true_r, triggers_of_app.
      unfold triggers_of at 2. simpl.
      case_bool_decide as Hk; simpl.
      * subst k. rewrite !lookup_insert_eq, Hl.
        rewrite (bool_decide_eq_true_2 (Some false = Some false)) by done.
        destruct (string_dec name name); [|done]. repeat split; lia.
      * rewrite !lookup_insert_ne by done.
        destruct (string_dec name k); [done|]. repeat split; lia.
  - eexists; split; [reflexivity|]. split; [reflexivity|].
    eapply advances_ext; [|apply advances_refl].
    intros k. by rewrite andb_false_r.
Qed.

Lemma scan_zones_advances cx cy zones : forall st,
  (forall e, e ∈ zones ->
     is_Some (sound_is_locked st !! fst e) /\ is_Some (drum_sounds !! fst e)) ->
  exists st',
    for_each zones (check_zone cx cy) st = Ok st'
    /\ circles st' = circles st
    /\ advances (fun k => zone_contains zones k (cx, cy)) st st'.
Proof.
  induction zones as [|[name zp] zones IH]; intros st Hcov.
  - exists st. repeat split; try reflexivity. apply advances_refl.
  - destruct (Hcov (name, zp)) as [Hl Hs]; [left|].
    destruct (check_zone_advances cx cy st name zp Hl Hs) as (st1 & E1 & C1 & A1).
    destruct (IH st1) as (st2 & E2 & C2 & A2).
    { intros e He. destruct (Hcov e) as [Hl' Hs']; [by right|].
      split; [|done]. eapply advances_cover; eauto. }
    exists st2. rewrite for_each_cons, E1, bind_Ok. split; [exact E2|].
    split; [congruence|].
    eapply advances_ext; [|exact (advances_trans _ _ _ _ _ A1 A2)].
    intros k. reflexivity.
Qed.

Lemma zone_contains_outside zones k p :
  k ∉ keys zones -> zone_contains zones k p = false.
Proof.
  unfold zone_contains, keys. induction zones as [|e zones IH]; intros Hk; simpl.
  - reflexivity.
  - rewrite IH by (intros H; apply Hk; by right).
    rewrite bool_decide_eq_false_2; [reflexivity|].
    intros E. apply Hk. simpl. rewrite E. left.
Qed.

Lemma object_hits_outside k c :
  k ∉ keys drum_zones -> object_hits k c = false.
Proof.
  intros Hk. unfold object_hits.
  by rewrite zone_contains_outside, andb_false_r.
Qed.

Lemma frame_hits_outside k cs :
  k ∉ keys drum_zones -> existsb (object_hits k) cs = false.
Proof.
  intros Hk. induction cs as [|c cs IH]; [reflexivity|]. simpl.
  by rewrite object_hits_outside, IH.
Qed.

Lemma process_contour_advances st c :
  locks_cover_zones (sound_is_locked st) ->
  exists st',
    process_contour st c = Ok st'
    /\ circles st' = circles st
                     ++ (if Qgtb (contourArea c) 500 then [centroid c] else [])
    /\ advances (fun k => object_hits k c) st st'.
Proof.
  intros Hcov. unfold process_contour, object_hits.
  destruct (Qgtb (contourArea c) 500) eqn:Hbig.
  - destruct (centroid c) as [cx cy] eqn:Hc.
    match goal with
    | |- context [for_each drum_zones _ ?s] =>
        destruct (scan_zones_advances cx cy drum_zones s) as (st' & E & C & A)
    end.
    { intros e He. assert (Hk : fst e ∈ keys drum_zones).
      { unfold keys. apply list_elem_of_fmap. by exists e. }
      split; [by apply Hcov | by apply drum_sounds_cover]. }
    exists st'. split; [exact E|]. split; [exact C|].
    intros k. destruct (A k) as (Ha & Hb & Ht). simpl in *. auto.
  - exists st. split; [reflexivity|]. split; [by rewrite app_nil_r|].
    apply advances_refl.
Qed.

Lemma advances_locks_cover hits st st' :
  advances hits st st' ->
  locks_cover_zones (sound_is_locked st) -> locks_cover_zones (sound_is_locked st').
Proof. intros A H name Hn. eapply advances_cover; eauto. Qed.

Lemma contours_advance cs : forall st,
  locks_cover_zones (sound_is_locked st) ->
  exists st',
    for_each cs process_contour st = Ok st'
    /\ circles st' = circles st ++ detected_objects cs
    /\ advances (fun k => existsb (object_hits k) cs) st st'.
Proof.
  induction cs as [|c cs IH]; intros st Hcov.
  - exists st. split; [reflexivity|]. split; [by rewrite app_nil_r|].
    apply advances_refl.
  - destruct (process_contour_advances st c Hcov) as (st1 & E1 & C1 & A1).
    destruct (IH st1) as (st2 & E2 & C2 & A2).
    { eapply advances_locks_cover; eauto. }
    exists st2. rewrite for_each_cons, E1, bind_Ok. split; [exact E2|].
    split.
    + rewrite C2, C1, <- app_assoc. f_equal.
      unfold detected_objects. rewrite filter_cons.
      destruct (Qgtb (contourArea c) 500) eqn:Hbig.
      * rewrite decide_True by done. reflexivity.
      * rewrite decide_False by discriminate. reflexivity.
    + eapply advances_ext; [|exact (advances_trans _ _ _ _ _ A1 A2)].
      intros k. reflexivity.
Qed.

Lemma reset_locks_spec names : forall st,
  (forall n, n ∈ names -> is_Some (drums_being_hit st !! n)) ->
  exists st',
    for_each names reset_lock st = Ok st'
    /\ drums_being_hit st' = drums_being_hit st
    /\ played st' = played st
    /\ circles st' = circles st
    /\ forall k,
         sound_is_locked st' !! k
         = if bool_decide (k ∈ names)
              && bool_decide (drums_being_hit st !! k = Some false)
           then Some false else sound_is_locked st !! k.
Proof.
  induction names as [|n names IH]; intros st Hdef.
  - exists st. do 4 (split; [reflexivity|]). intros k.
    rewrite bool_decide_eq_false_2; [reflexivity|]. apply not_elem_of_nil.
  - destruct (Hdef n) as [h Hh]; [left|].
    rewrite for_each_cons.
    assert (E0 : reset_lock st n
                 = Ok (if negb h
                       then {| drums_being_hit := drums_being_hit st;
                               sound_is_locked := <[n := false]> (sound_is_locked st);
                               played := played st;
                               circles := circles st |}
                       else st)).
    { unfold reset_lock. rewrite (getitem_Some _ _ _ Hh), bind_Ok.
      by destruct h. }
    rewrite E0, bind_Ok. clear E0.
    destruct h; simpl.
    + destruct (IH st) as (st' & E & H1 & H2 & H3 & H4).
      { intros m Hm. apply Hdef. by right. }
      exists st'. rewrite E. repeat split; try done.
      intros k. rewrite H4.
      destruct (decide (k = n)) as [->|Hne].
      * rewrite Hh.
        rewrite (bool_decide_eq_false_2 (Some true = Some false)) by discriminate.
        by rewrite !andb_false_r.
      * by rewrite (bool_decide_ext (k ∈ n :: names) (k ∈ names))
          by (rewrite elem_of_cons; intuition congruence).
    + match goal with
      | |- context [for_each names reset_lock ?s] =>
          destruct (IH s) as (st' & E & H1 & H2 & H3 & H4)
      end.
      { intros m Hm. simpl. apply Hdef. by right. }
      simpl in *. exists st'. rewrite E. repeat split; try done.
      intros k. rewrite H4.
      destruct (decide (k = n)) as [->|Hne].
      * rewrite lookup_insert_eq, Hh.
        rewrite (bool_decide_eq_true_2 (n ∈ n :: names)) by left.
        rewrite (bool_decide_eq_true_2 (Some false = Some false)) by done.
        simpl. by destruct (bool_decide (n ∈ names)).
      * rewrite lookup_insert_ne by done.
        by rewrite (bool_decide_ext (k ∈ n :: names) (k ∈ names))
          by (rewrite elem_of_cons; intuition congruence).
Qed.

(** The whole frame, read zone by zone. *)
Lemma play_frame_spec locks cs :
  locks_cover_zones locks ->
  exists st,
    play_frame locks cs = Ok st
    /\ circles st = detected_objects cs
    /\ (forall k, k ∈ keys drum_zones ->
          drums_being_hit st !! k = Some (existsb (object_hits k) cs)
          /\ sound_is_locked st !! k = Some (existsb (object_hits k) cs)
          /\ triggers_of k (played st)
             = if existsb (object_hits k) cs
                  && bool_decide (locks !! k = Some false)
               then 1%nat else 0%nat)
    /\ (forall k, k ∉ keys drum_zones ->
          drums_being_hit st !! k = None
          /\ sound_is_locked st !! k = locks !! k
          /\ triggers_of k (played st) = 0%nat).
Proof.
  intros Hcov. unfold play_frame.
  match goal with
  | |- context [for_each cs process_contour ?s] =>
      destruct (contours_advance cs s Hcov) as (st1 & E1 & C1 & A1)
  end.
  rewrite E1, bind_Ok. simpl in C1, A1.
  destruct (reset_locks_spec (keys drum_zones) st1) as (st2 & E2 & H1 & H2 & H3 & H4).
  { intros n Hn. destruct (A1 n) as (Ha & _). rewrite Ha. simpl.
    rewrite dict_fromkeys_lookup, bool_decide_eq_true_2 by done.
    destruct (existsb _ cs); eauto. }
  exists st2. split; [exact E2|]. split; [congruence|].
  pose proof (fun k => frame_hits_outside k cs) as Hout.
  split; intros k Hk; destruct (A1 k) as (Ha & Hb & Ht); simpl in Ha, Hb, Ht;
    rewrite H1, H2, H4, Ha, Hb, Ht, dict_fromkeys_lookup; decide_membership.
  - rewrite andb_true_l.
    destruct (existsb (object_hits k) cs).
    + rewrite (bool_decide_eq_false_2 (Some true = Some false)) by discriminate.
      done.
    + rewrite (bool_decide_eq_true_2 (Some false = Some false)) by done.
      done.
  - rewrite (Hout k Hk). done.
Qed.

Lemma play_frame_locks_cover locks cs st :
  locks_cover_zones locks -> play_frame locks cs = Ok st ->
  locks_cover_zones (sound_is_locked st).
Proof.
  intros Hcov E name Hn.
  destruct (play_frame_spec locks cs Hcov) as (st' & E' & _ & Hin & _).
  assert (st' = st) as -> by congruence.
  destruct (Hin name Hn) as (_ & Hl & _). rewrite Hl. eauto.
Qed.

Lemma is_hit_frame locks cs st name :
  locks_cover_zones locks -> play_frame locks cs = Ok st ->
  name ∈ keys drum_zones ->
  is_hit st name = existsb (object_hits name) cs.
Proof.
  intros Hcov E Hn.
  destruct (play_frame_spec locks cs Hcov) as (st' & E' & _ & Hin & _).
  assert (st' = st) as -> by congruence.
  destruct (Hin name Hn) as (Hh & _). unfold is_hit. rewrite Hh.
  destruct (existsb (object_hits name) cs).
  - by rewrite bool_decide_eq_true_2.
  - by rewrite bool_decide_eq_false_2.
Qed.








(* ===================================================================== *)
(** ** Containment *)
(* ===================================================================== *)

(** C2: the containment test accepts exactly the points of the closed
    rectangle [x1 <= px <= x2], [y1 <= py <= y2]; a point on any of the four
    edges is inside, and a point one unit beyond any edge is outside. *)
Theorem containment_is_closed_rectangle (x1 y1 x2 y2 px py : Z) :
  (is_point_inside_zone px py (x1, y1, x2, y2) = true
     <-> x1 <= px <= x2 /\ y1 <= py <= y2)
  /\ (x1 <= x2 -> y1 <= py <= y2 ->
        is_point_inside_zone x1 py (x1, y1, x2, y2) = true
        /\ is_point_inside_zone x2 py (x1, y1, x2, y2) = true)
  /\ (y1 <= y2 -> x1 <= px <= x2 ->
        is_point_inside_zone px y1 (x1, y1, x2, y2) = true
        /\ is_point_inside_zone px y2 (x1, y1, x2, y2) = true)
  /\ is_point_inside_zone (x1 - 1) py (x1, y1, x2, y2) = false
  /\ is_point_inside_zone (x2 + 1) py (x1, y1, x2, y2) = false
  /\ is_point_inside_zone px (y1 - 1) (x1, y1, x2, y2) = false
  /\ is_point_inside_zone px (y2 + 1) (x1, y1, x2, y2) = false.
Proof.
  split; [apply is_point_inside_zone_iff|].
  split; [intros; split; apply is_point_inside_zone_iff; lia|].
  split; [intros; split; apply is_point_inside_zone_iff; lia|].
  repeat split; apply not_true_is_false; rewrite is_point_inside_zone_iff; lia.
Qed.

Lemma containment_is_closed_rectangle_witness :
  is_point_inside_zone 128 400 (128, 380, 256, 480) = true
  /\ is_point_inside_zone 256 400 (128, 380, 256, 480) = true
  /\ is_point_inside_zone 200 380 (128, 380, 256, 480) = true
  /\ is_point_inside_zone 200 480 (128, 380, 256, 480) = true
  /\ is_point_inside_zone 127 400 (128, 380, 256, 480) = false.
Proof.
  destruct (containment_is_closed_rectangle 128 380 256 480 200 400)
    as (_ & Hx & Hy & Hl & _).
  destruct Hx as [Ha Hb]; [lia | lia |].
  destruct Hy as [Hc Hd]; [lia | lia |].
  repeat split; assumption.
Defined.

(* ===================================================================== *)
(** ** Noise filter *)
(* ===================================================================== *)

(** C3, as the code has it: the filter is [contour_area > 500], so a contour
    is dropped exactly when its area is at most 500 (499 and 500 alike): the
    frame state is left as it was, with no tracking circle, no hit flag and
    no sample.  A contour whose area exceeds 500 is kept: a circle is drawn at
    the center [(x + w // 2, y + h // 2)] of its bounding rectangle and the
    zones are tested against that point. *)
Theorem noise_filter_keeps_above_500 (st : frame_state) (c : contour) :
  locks_cover_zones (sound_is_locked st) ->
  ((contourArea c <= 500)%Q -> process_contour st c = Ok st)
  /\ ((500 < contourArea c)%Q ->
      exists st',
        process_contour st c = Ok st'
        /\ circles st' = circles st ++ [centroid c]
        /\ (let '(x, y, w, h) := boundingRect c in
            centroid c = (x + w / 2, y + h / 2))
        /\ advances (fun name => zone_contains drum_zones name (centroid c)) st st').
Proof.
  intros Hcov. split.
  - intros Hle. unfold process_contour.
    by rewrite (proj2 (Qgtb_false _ _) Hle).
  - intros Hgt. apply Qgtb_true in Hgt.
    destruct (process_contour_advances st c Hcov) as (st' & E & C & A).
    exists st'. split; [exact E|]. rewrite Hgt in C. split; [exact C|].
    split.
    + unfold centroid. by destruct (boundingRect c) as [[[x y] w] h].
    + eapply advances_ext; [|exact A].
      intros k. unfold object_hits. by rewrite Hgt.
Qed.

Lemma noise_filter_keeps_above_500_witness :
  let st := {| drums_being_hit := dict_fromkeys (keys drum_zones) false;
               sound_is_locked := initial_locks;
               played := [];
               circles := [] |} in
  process_contour st {| contourArea := 499; boundingRect := (54, 420, 20, 20) |}
    = Ok st
  /\ exists st',
       process_contour st {| contourArea := 501; boundingRect := (54, 420, 20, 20) |}
         = Ok st'
       /\ circles st' = [(64, 430)].
Proof.
  intros st. split.
  - apply (noise_filter_keeps_above_500 st
             {| contourArea := 499; boundingRect := (54, 420, 20, 20) |}).
    + exact initial_locks_cover.
    + unfold Qle; simpl; lia.
  - destruct (noise_filter_keeps_above_500 st
                {| contourArea := 501; boundingRect := (54, 420, 20, 20) |}
                initial_locks_cover) as [_ H].
    destruct H as (st' & E & C & _); [reflexivity|].
    exists st'. split; [exact E | exact C].
Defined.

(** C3 as stated fails at area exactly 500: that area is not below 500, yet
    the contour is dropped and no tracking circle is drawn for it. *)
Lemma area_500_is_discarded :
  ~ (forall (st : frame_state) (c : contour),
       locks_cover_zones (sound_is_locked st) ->
       ~ (contourArea c < 500)%Q ->
       exists st',
         process_contour st c = Ok st'
         /\ circles st' = circles st ++ [centroid c]).
Proof.
  intros H.
  destruct (H {| drums_being_hit := dict_fromkeys (keys drum_zones) false;
                 sound_is_locked := initial_locks;
                 played := [];
                 circles := [] |}
              {| contourArea := 500; boundingRect := (54, 420, 20, 20) |}
              initial_locks_cover)
    as (st' & E & C).
  - simpl. intros Hlt. apply Qlt_not_le in Hlt. apply Hlt. apply Qle_refl.
  - revert C. evaluate_from E. vm_compute. discriminate.
Qed.

(* ===================================================================== *)
(** ** Debouncing across frames *)
(* ===================================================================== *)





(* ===================================================================== *)
(** ** Hit resolution *)
(* ===================================================================== *)

Lemma keys_drum_zones_NoDup : NoDup (keys drum_zones).
Proof. apply (bool_decide_unpack _). vm_compute. exact I. Qed.

Lemma elem_of_keys {V} (d : list (string * V)) name v :
  (name, v) ∈ d -> name ∈ keys d.
Proof. intros H. unfold keys. apply list_elem_of_fmap. by exists (name, v). Qed.

Lemma zone_contains_unique zones name zp p :
  NoDup (keys zones) -> (name, zp) ∈ zones ->
  zone_contains zones name p = is_point_inside_zone (fst p) (snd p) (box zp).
Proof.
  unfold zone_contains. induction zones as [|[n z] zones IH]; intros Hnd Hin.
  - by apply elem_of_nil in Hin.
  - simpl in Hnd. apply NoDup_cons in Hnd as [Hfresh Hnd].
    apply elem_of_cons in Hin as [E|Hin]; simpl.
    + injection E as <- <-.
      rewrite bool_decide_eq_true_2 by done. simpl.
      fold (zone_contains zones name p).
      rewrite zone_contains_outside by done. apply orb_false_r.
    + rewrite bool_decide_eq_false_2; [by apply IH|].
      intros ->. apply Hfresh. eapply elem_of_keys; eauto.
Qed.

Lemma object_hits_unique name zp c :
  (name, zp) ∈ drum_zones ->
  object_hits name c
  = Qgtb (contourArea c) 500
    && is_point_inside_zone (fst (centroid c)) (snd (centroid c)) (box zp).
Proof.
  intros Hin. unfold object_hits.
  by rewrite (zone_contains_unique _ _ zp) by (exact keys_drum_zones_NoDup || done).
Qed.

(** C4: at the end of a play frame the hit flag of a zone is set iff some
    contour that passed the noise filter has its centroid in the zone's closed
    rectangle; every zone has a flag; whether a zone's sample starts depends
    on that zone's own hit flag and lock only; and two distinct zones that are
    both hit in the frame and both unlocked before it each start their sample
    exactly once. *)
Theorem hit_state_per_zone (locks : gmap string bool) (cs : list contour) :
  locks_cover_zones locks ->
  exists st,
    play_frame locks cs = Ok st
    /\ (forall name zp, (name, zp) ∈ drum_zones ->
          is_Some (drums_being_hit st !! name)
          /\ (drums_being_hit st !! name = Some true
              <-> exists c,
                    c ∈ cs /\ (500 < contourArea c)%Q
                    /\ (let '(x1, y1, x2, y2) := box zp in
                        let '(px, py) := centroid c in
                        x1 <= px <= x2 /\ y1 <= py <= y2)))
    /\ (forall name,
          name ∈ keys drum_zones ->
          triggers_of name (played st)
          = if is_hit st name && bool_decide (locks !! name = Some false)
            then 1%nat else 0%nat)
    /\ (forall n1 n2,
          n1 <> n2 ->
          drums_being_hit st !! n1 = Some true ->
          drums_being_hit st !! n2 = Some true ->
          locks !! n1 = Some false -> locks !! n2 = Some false ->
          triggers_of n1 (played st) = 1%nat
          /\ triggers_of n2 (played st) = 1%nat).
Proof.
  intros Hcov.
  destruct (play_frame_spec locks cs Hcov) as (st & E & _ & Hin & Hout).
  exists st. split; [exact E|]. split; [|split].
  2: { intros name Hn. rewrite (is_hit_frame locks cs st name Hcov E Hn).
       by destruct (Hin name Hn) as (_ & _ & ->). }
  - intros name zp Hz.
    destruct (Hin name (elem_of_keys _ _ _ Hz)) as (Hh & _).
    rewrite Hh. split; [eauto|].
    split.
    + intros [= Hex]. apply existsb_exists in Hex as (c & Hc & Hob).
      rewrite (object_hits_unique name zp c Hz) in Hob.
      apply andb_true_iff in Hob as [Hbig Hins].
      exists c. split; [by apply list_elem_of_In|].
      split; [by apply Qgtb_true|].
      destruct (box zp) as [[[x1 y1] x2] y2], (centroid c) as [px py].
      by apply is_point_inside_zone_iff.
    + intros (c & Hc & Hbig & Hins). f_equal.
      apply existsb_exists. exists c. split; [by apply list_elem_of_In|].
      rewrite (object_hits_unique name zp c Hz).
      apply andb_true_iff. split; [by apply Qgtb_true|].
      destruct (box zp) as [[[x1 y1] x2] y2], (centroid c) as [px py].
      by apply is_point_inside_zone_iff.
  - assert (Hone : forall n, drums_being_hit st !! n = Some true ->
                             locks !! n = Some false ->
                             triggers_of n (played st) = 1%nat).
    { intros n Hh Hl.
      destruct (decide (n ∈ keys drum_zones)) as [Hk|Hk].
      - destruct (Hin n Hk) as (Hh' & _ & Ht).
        rewrite Hh' in Hh. injection Hh as Hh.
        by rewrite Ht, Hh, Hl, bool_decide_eq_true_2.
      - destruct (Hout n Hk) as (Hh' & _). congruence. }
    intros n1 n2 _ H1 H2 L1 L2. split; by apply Hone.
Qed.

Lemma hit_state_per_zone_witness :
  exists st,
    play_frame initial_locks
      [ {| contourArea := 900; boundingRect := (30, 400, 30, 30) |};
        {| contourArea := 700; boundingRect := (40, 20, 30, 30) |} ] = Ok st
    /\ triggers_of "Kick" (played st) = 1%nat
    /\ triggers_of "Crash" (played st) = 1%nat.
Proof.
  destruct (hit_state_per_zone initial_locks
              [ {| contourArea := 900; boundingRect := (30, 400, 30, 30) |};
                {| contourArea := 700; boundingRect := (40, 20, 30, 30) |} ]
              initial_locks_cover) as (st & E & _ & _ & H).
  exists st. split; [exact E|].
  apply H.
  - discriminate.
  - evaluate_from E. vm_compute. reflexivity.
  - evaluate_from E. vm_compute. reflexivity.
  - vm_compute. reflexivity.
  - vm_compute. reflexivity.
Defined.

(* ===================================================================== *)
(** ** Shared pad boundaries *)
(* ===================================================================== *)

(** C9: the bottom-row pads [k - 1] and [k] (for [k] from 1 to 4) both
    contain the column [x = k * zone_width], with [zone_width = 128]; a
    contour that passes the noise filter and whose centroid lies on that
    column within the bottom row is inside both pads, and from the initial
    lock flags that single contour starts the samples of both pads in one
    frame. *)
Theorem adjacent_pads_share_boundary (k y : Z) (c : contour) :
  1 <= k <= 4 ->
  WINDOW_HEIGHT - ZONE_HEIGHT <= y <= WINDOW_HEIGHT ->
  (500 < contourArea c)%Q ->
  centroid c = (k * zone_width, y) ->
  zone_width = 128
  /\ exists left_pad right_pad zl zr,
       drum_zones !! Z.to_nat (k - 1) = Some (left_pad, zl)
       /\ drum_zones !! Z.to_nat k = Some (right_pad, zr)
       /\ left_pad <> right_pad
       /\ is_crash zl = false /\ is_crash zr = false
       /\ is_point_inside_zone (k * zone_width) y (box zl) = true
       /\ is_point_inside_zone (k * zone_width) y (box zr) = true
       /\ exists st,
            play_frame initial_locks [c] = Ok st
            /\ drums_being_hit st !! left_pad = Some true
            /\ drums_being_hit st !! right_pad = Some true
            /\ triggers_of left_pad (played st) = 1%nat
            /\ triggers_of right_pad (played st) = 1%nat.
Proof.
  intros Hk Hy Hbig Hc. split; [reflexivity|].
  apply Qgtb_true in Hbig.
  unfold WINDOW_HEIGHT, ZONE_HEIGHT in Hy.
  destruct (play_frame_spec initial_locks [c] initial_locks_cover)
    as (st & E & _ & Hin & _).
  assert (Hpads : forall name zp,
            (name, zp) ∈ drum_zones ->
            is_point_inside_zone (k * zone_width) y (box zp) = true ->
            drums_being_hit st !! name = Some true
            /\ triggers_of name (played st) = 1%nat).
  { intros name zp Hz Hins.
    pose proof (elem_of_keys _ _ _ Hz) as Hn.
    destruct (Hin name Hn) as (Hh & _ & Ht).
    assert (Hob : existsb (object_hits name) [c] = true).
    { simpl. rewrite (object_hits_unique name zp c Hz), Hbig, Hc. simpl.
      by rewrite Hins. }
    rewrite Hh, Ht, Hob, (initial_locks_lookup name Hn).
    by rewrite bool_decide_eq_true_2. }
  assert (Hcase : k = 1 \/ k = 2 \/ k = 3 \/ k = 4) by lia.
  rewrite zone_width_eq in *. rewrite drum_zones_eq in Hpads |- *.
  destruct Hcase as [-> | [-> | [-> | ->]]].
  all: do 4 eexists.
  all: split; [reflexivity|]; split; [reflexivity|].
  all: split; [discriminate|].
  all: split; [reflexivity|]; split; [reflexivity|].
  all: match goal with
       | |- is_point_inside_zone ?x ?py ?b1 = true
            /\ is_point_inside_zone ?x ?py ?b2 = true /\ _ =>
           assert (I1 : is_point_inside_zone x py b1 = true)
             by (apply is_point_inside_zone_iff; lia);
           assert (I2 : is_point_inside_zone x py b2 = true)
             by (apply is_point_inside_zone_iff; lia)
       end.
  all: split; [exact I1|]; split; [exact I2|].
  all: exists st; split; [exact E|].
  all: match goal with
       | |- drums_being_hit _ !! ?l = _ /\ drums_being_hit _ !! ?r = _ /\ _ =>
           match type of I1 with
           | is_point_inside_zone _ _ (box ?zl) = _ =>
               match type of I2 with
               | is_point_inside_zone _ _ (box ?zr) = _ =>
                   destruct (Hpads l zl) as [A1 A2];
                   [ list_member | exact I1 | ];
                   destruct (Hpads r zr) as [B1 B2];
                   [ list_member | exact I2 | ]
               end
           end
       end.
  all: repeat split; assumption.
Qed.

Lemma adjacent_pads_share_boundary_witness :
  exists st,
    play_frame initial_locks
      [ {| contourArea := 650; boundingRect := (113, 415, 30, 30) |} ] = Ok st
    /\ played st = ["Kick"; "Snare"].
Proof.
  destruct (adjacent_pads_share_boundary 1 430
              {| contourArea := 650; boundingRect := (113, 415, 30, 30) |})
    as (_ & l & r & zl & zr & _ & _ & _ & _ & _ & _ & _ & st & E & _).
  - lia.
  - unfold WINDOW_HEIGHT, ZONE_HEIGHT. lia.
  - reflexivity.
  - reflexivity.
  - exists st. split; [exact E|].
    evaluate_from E. vm_compute. reflexivity.
Defined.

(* ===================================================================== *)
(** ** The interleaved loop against the two-phase reading *)
(* ===================================================================== *)

Lemma in_closed_rectangle_inside p bounds :
  TwoPhase.in_closed_rectangle p bounds
  = is_point_inside_zone (fst p) (snd p) bounds.
Proof.
  destruct p as [px py], bounds as [[[x1 y1] x2] y2].
  unfold TwoPhase.in_closed_rectangle. cbn [fst snd].
  destruct (is_point_inside_zone px py (x1, y1, x2, y2)) eqn:E.
  - apply bool_decide_eq_true_2. by apply is_point_inside_zone_iff.
  - apply bool_decide_eq_false_2. intros H.
    apply is_point_inside_zone_iff in H. congruence.
Qed.

Lemma existsb_detected_objects (g : Z * Z -> bool) cs :
  existsb g (detected_objects cs)
  = existsb (fun c => Qgtb (contourArea c) 500 && g (centroid c)) cs.
Proof.
  unfold detected_objects. induction cs as [|c cs IH]; [reflexivity|].
  rewrite filter_cons. simpl. destruct (Qgtb (contourArea c) 500) eqn:Hbig.
  - rewrite decide_True by done. simpl. by rewrite IH.
  - rewrite decide_False by discriminate. simpl. by rewrite IH.
Qed.

Lemma fold_zones_outside {V} (f : zone_properties -> V) zones k :
  forall m : gmap string V,
  k ∉ keys zones ->
  foldl (fun hits '(name, zone) => <[name := f zone]> hits) m zones !! k = m !! k.
Proof.
  induction zones as [|[n z] zones IH]; intros m Hk; [reflexivity|].
  simpl. rewrite IH.
  - apply lookup_insert_ne. intros ->. apply Hk. left.
  - intros H. apply Hk. by right.
Qed.

Lemma fold_zones_inside {V} (f : zone_properties -> V) zones k zp :
  forall m : gmap string V,
  NoDup (keys zones) -> (k, zp) ∈ zones ->
  foldl (fun hits '(name, zone) => <[name := f zone]> hits) m zones !! k
  = Some (f zp).
Proof.
  induction zones as [|[n z] zones IH]; intros m Hnd Hin.
  - by apply elem_of_nil in Hin.
  - simpl in Hnd. apply NoDup_cons in Hnd as [Hfresh Hnd].
    apply elem_of_cons in Hin as [E|Hin]; simpl.
    + injection E as <- <-.
      rewrite fold_zones_outside by done. apply lookup_insert_eq.
    + by apply IH.
Qed.

Lemma two_phase_hit_state_inside cs name zp :
  (name, zp) ∈ drum_zones ->
  TwoPhase.hit_state (detected_objects cs) !! name
  = Some (existsb (object_hits name) cs).
Proof.
  intros Hz. unfold TwoPhase.hit_state.
  rewrite (fold_zones_inside
             (fun zone => existsb (fun p => TwoPhase.in_closed_rectangle p (box zone))
                                  (detected_objects cs))
             drum_zones name zp) by (exact keys_drum_zones_NoDup || done).
  f_equal. rewrite existsb_detected_objects.
  induction cs as [|c cs IH]; [reflexivity|]. simpl.
  by rewrite IH, in_closed_rectangle_inside, (object_hits_unique name zp c Hz).
Qed.

Lemma two_phase_hit_state_outside objects name :
  name ∉ keys drum_zones -> TwoPhase.hit_state objects !! name = None.
Proof.
  intros Hn. unfold TwoPhase.hit_state.
  rewrite (fold_zones_outside
             (fun zone => existsb (fun p => TwoPhase.in_closed_rectangle p (box zone))
                                  objects)) by done.
  apply lookup_empty.
Qed.

Lemma keys_have_zones {V} (d : list (string * V)) name :
  name ∈ keys d -> exists v, (name, v) ∈ d.
Proof.
  unfold keys. intros H. apply list_elem_of_fmap in H as ([n v] & -> & H).
  by exists v.
Qed.

(** The debouncers of the two-phase reading, run over distinct names. *)
Lemma two_phase_debounce_fold hits names : forall locks triggers,
  NoDup names ->
  exists locks' triggers',
    foldl (TwoPhase.debounce_zone hits) (locks, triggers) names = (locks', triggers')
    /\ (forall k,
          locks' !! k
          = if bool_decide (k ∈ names)
            then Some (default false (hits !! k)) else locks !! k)
    /\ (forall k,
          triggers_of k triggers'
          = (triggers_of k triggers
             + (if bool_decide (k ∈ names)
                   && (default false (hits !! k)
                       && negb (default false (locks !! k)))
                then 1 else 0))%nat).
Proof.
  induction names as [|n names IH]; intros locks triggers Hnd.
  - exists locks, triggers. split; [reflexivity|]. split; intros k.
    + by rewrite bool_decide_eq_false_2 by apply not_elem_of_nil.
    + rewrite bool_decide_eq_false_2 by apply not_elem_of_nil. simpl. lia.
  - apply NoDup_cons in Hnd as [Hfresh Hnd]. cbn [foldl].
    destruct (TwoPhase.debounce (default false (locks !! n))
                                (default false (hits !! n)))
      as [locked' emit] eqn:Hd.
    assert (Estep : TwoPhase.debounce_zone hits (locks, triggers) n
                    = (<[n := locked']> locks,
                       if emit then triggers ++ [n] else triggers)).
    { unfold TwoPhase.debounce_zone. by rewrite Hd. }
    rewrite Estep. clear Estep.
    destruct (IH (<[n := locked']> locks)
                 (if emit then triggers ++ [n] else triggers) Hnd)
      as (locks' & triggers' & E & Hl & Ht).
    exists locks', triggers'. split; [exact E|].
    assert (Hd' : locked' = default false (hits !! n)
                  /\ emit = default false (hits !! n)
                            && negb (default false (locks !! n))).
    { unfold TwoPhase.debounce in Hd.
      destruct (default false (locks !! n)), (default false (hits !! n));
        injection Hd as <- <-; done. }
    destruct Hd' as [-> ->].
    split; intros k.
    + rewrite Hl. destruct (decide (k = n)) as [->|Hne].
      * rewrite (bool_decide_eq_false_2 (n ∈ names)) by done.
        rewrite (bool_decide_eq_true_2 (n ∈ n :: names)) by left.
        apply lookup_insert_eq.
      * rewrite lookup_insert_ne by done.
        by rewrite (bool_decide_ext (k ∈ n :: names) (k ∈ names))
          by (rewrite elem_of_cons; intuition congruence).
    + rewrite Ht. destruct (decide (k = n)) as [->|Hne].
      * rewrite (bool_decide_eq_false_2 (n ∈ names)) by done.
        rewrite (bool_decide_eq_true_2 (n ∈ n :: names)) by left.
        simpl.
        destruct (default false (hits !! n) && negb (default false (locks !! n))).
        -- rewrite triggers_of_app. unfold triggers_of at 2. simpl.
           destruct (string_dec n n); [lia|done].
        -- lia.
      * rewrite lookup_insert_ne by done.
        rewrite (bool_decide_ext (k ∈ n :: names) (k ∈ names))
          by (rewrite elem_of_cons; intuition congruence).
        assert (triggers_of k (if default false (hits !! n)
                                  && negb (default false (locks !! n))
                               then triggers ++ [n] else triggers)
                = triggers_of k triggers) as ->; [|done].
        destruct (_ && _); [|done].
        rewrite triggers_of_app. unfold triggers_of at 2. simpl.
        destruct (string_dec n k); [congruence|lia].
Qed.

(** C10: for every frame and every lock state covering the zones, the loop of
    the program and the two-phase reading (hit resolver over all detected
    objects, then one debouncer per zone) end with the same hit map and the
    same lock flags, and start the same samples, each the same number of
    times (the order in which they start may differ). *)
Theorem interleaved_equals_two_phase (locks : gmap string bool) (cs : list contour) :
  locks_cover_zones locks ->
  exists st,
    play_frame locks cs = Ok st
    /\ circles st = detected_objects cs
    /\ (let '(locks', triggers, hits) := TwoPhase.frame locks (circles st) in
        drums_being_hit st = hits
        /\ sound_is_locked st = locks'
        /\ Permutation (played st) triggers).
Proof.
  intros Hcov.
  destruct (play_frame_spec locks cs Hcov) as (st & E & C & Hin & Hout).
  exists st. split; [exact E|]. split; [exact C|].
  rewrite C. unfold TwoPhase.frame.
  destruct (two_phase_debounce_fold (TwoPhase.hit_state (detected_objects cs))
              (keys drum_zones) locks [] keys_drum_zones_NoDup)
    as (locks' & triggers' & Ef & Hl & Ht).
  rewrite Ef.
  assert (Hhits : forall k,
            drums_being_hit st !! k
            = TwoPhase.hit_state (detected_objects cs) !! k).
  { intros k. destruct (decide (k ∈ keys drum_zones)) as [Hk|Hk].
    - destruct (keys_have_zones _ _ Hk) as [zp Hz].
      rewrite (two_phase_hit_state_inside cs k zp Hz). by apply Hin.
    - rewrite two_phase_hit_state_outside by done. by apply Hout. }
  split; [by apply map_eq|].
  split.
  - apply map_eq. intros k. rewrite Hl, <- Hhits.
    destruct (decide (k ∈ keys drum_zones)) as [Hk|Hk]; decide_membership.
    + destruct (Hin k Hk) as (-> & -> & _). reflexivity.
    + by apply Hout.
  - apply (Permutation_count_occ String.string_dec). intros k.
    fold (triggers_of k (played st)). fold (triggers_of k triggers').
    rewrite Ht, <- Hhits.
    destruct (decide (k ∈ keys drum_zones)) as [Hk|Hk]; decide_membership.
    + destruct (Hin k Hk) as (-> & _ & ->). simpl.
      destruct (Hcov k Hk) as [[] ->]; simpl.
      * by rewrite !andb_false_r.
      * reflexivity.
    + destruct (Hout k Hk) as (_ & _ & ->). reflexivity.
Qed.

Lemma interleaved_equals_two_phase_witness :
  exists st,
    play_frame initial_locks
      [ {| contourArea := 900; boundingRect := (180, 400, 30, 30) |};
        {| contourArea := 650; boundingRect := (113, 415, 30, 30) |} ] = Ok st
    /\ played st = ["Snare"; "Kick"]
    /\ snd (fst (TwoPhase.frame initial_locks (circles st))) = ["Kick"; "Snare"].
Proof.
  destruct (interleaved_equals_two_phase initial_locks
              [ {| contourArea := 900; boundingRect := (180, 400, 30, 30) |};
                {| contourArea := 650; boundingRect := (113, 415, 30, 30) |} ]
              initial_locks_cover) as (st & E & _).
  exists st. split; [exact E|].
  evaluate_from E. vm_compute. split; reflexivity.
Defined.

(* ===================================================================== *)
(** ** Image loader *)
(* ===================================================================== *)

Lemma model_operations_contract (read : string -> result (option ndarray)) :
  OpenCV_contract {| imread := read;
                     resize := model_resize;
                     cvtColor_BGRA2BGR := model_cvtColor_BGRA2BGR;
                     putText := model_putText |}.
Proof.
  split; [|split]; simpl.
  - intros img w h img'. unfold model_resize.
    destruct ((0 <? w) && (0 <? h)); [|discriminate].
    intros [= <-]. simpl.
    destruct (drop 2 (shape img)) as [|c rest]; [by left|right].
    by exists c.
  - intros img img' [= <-]. reflexivity.
  - intros img text org. eexists. split; reflexivity.
Qed.

Lemma make_placeholder_ok (cv : OpenCV) w h :
  OpenCV_contract cv -> 0 <= w -> 0 <= h ->
  exists img, make_placeholder w h = Ok img /\ shape img = [h; w; 3].
Proof.
  intros (_ & _ & Htext) Hw Hh. unfold make_placeholder, np_zeros.
  simpl forallb.
  rewrite (proj2 (Z.leb_le 0 h) Hh), (proj2 (Z.leb_le 0 w) Hw). simpl.
  destruct (Htext {| shape := [h; w; 3]; data := Zeros |} "NO IMAGE"
                  (w / 2 - 50, h / 2 + 5)) as (img & E & Hs).
  exists img. by rewrite E, Hs.
Qed.

Lemma try_load_drum_image_shape (cv : OpenCV) file_path w h img :
  OpenCV_contract cv ->
  try_load_drum_image file_path w h = Ok (Some img) ->
  shape img = [h; w; 3].
Proof.
  intros (Hresize & Hcvt & _). unfold try_load_drum_image.
  destruct (imread file_path) as [[img0|]|e]; simpl; try discriminate.
  destruct (resize img0 (w, h)) as [img1|e] eqn:Er; simpl; [|discriminate].
  unfold shape_at.
  destruct (Hresize _ _ _ _ Er) as [Hs|[c Hs]]; rewrite Hs; simpl; [discriminate|].
  destruct (c =? 4) eqn:Hc4; simpl.
  - destruct (cvtColor_BGRA2BGR img1) as [img2|e] eqn:Ec; simpl; [|discriminate].
    rewrite (Hcvt _ _ Ec), Hs. simpl. intros [= <-].
    by rewrite (Hcvt _ _ Ec), Hs.
  - rewrite Hs. simpl. destruct (c =? 3) eqn:Hc3; [|discriminate].
    apply Z.eqb_eq in Hc3. subst c. by intros [= <-].
Qed.

(** C7: for every path and every requested image size (a width and a height
    in pixels, so not negative), whatever reading, resizing or converting the
    file does (fail, raise, or yield an image of any shape), the loader
    returns an image of shape [(target_height, target_width, 3)]; it is the
    loaded image when the [try] block returned one, and the generated
    placeholder otherwise, in particular when the file cannot be read. *)
Theorem loader_never_fails (cv : OpenCV) (file_path : string) (w h : Z) :
  OpenCV_contract cv -> 0 <= w -> 0 <= h ->
  exists img,
    load_drum_image file_path w h = Ok img
    /\ shape img = [h; w; 3]
    /\ match try_load_drum_image file_path w h with
       | Ok (Some loaded) => img = loaded
       | Ok None | Raise _ => make_placeholder w h = Ok img
       end
    /\ (imread file_path = Ok None -> make_placeholder w h = Ok img)
    /\ (forall e, imread file_path = Raise e -> make_placeholder w h = Ok img).
Proof.
  intros Hcv Hw Hh.
  destruct (make_placeholder_ok cv w h Hcv Hw Hh) as (ph & Eph & Hph).
  destruct (try_load_drum_image file_path w h) as [[loaded|]|e] eqn:Et.
  - exists loaded. split; [unfold load_drum_image; by rewrite Et|].
    split; [eapply try_load_drum_image_shape; eauto|].
    split; [reflexivity|].
    unfold try_load_drum_image in Et.
    split; [intros Hi | intros e Hi]; rewrite Hi in Et; discriminate.
  - exists ph. split; [unfold load_drum_image; by rewrite Et|]. by repeat split.
  - exists ph. split; [unfold load_drum_image; by rewrite Et|]. by repeat split.
Qed.

Lemma loader_never_fails_witness :
  (exists img,
     @load_drum_image unreadable_disk "assets/images/kick_drum.png" 128 100 = Ok img
     /\ shape img = [100; 128; 3]
     /\ data img = Text Zeros "NO IMAGE" (14, 55))
  /\ (exists img,
        @load_drum_image bgra_disk "assets/images/crash_cymbal.png" 160 100 = Ok img
        /\ shape img = [100; 160; 3]).
Proof.
  split.
  - destruct (loader_never_fails unreadable_disk "assets/images/kick_drum.png"
                128 100 (model_operations_contract _))
      as (img & E & Hs & _); [lia | lia |].
    exists img. split; [exact E|]. split; [exact Hs|].
    evaluate_from E. reflexivity.
  - destruct (loader_never_fails bgra_disk "assets/images/crash_cymbal.png"
                160 100 (model_operations_contract _))
      as (img & E & Hs & _); [lia | lia |].
    exists img. split; [exact E | exact Hs].
Defined.

(* ===================================================================== *)
(** ** More on the play frame *)
(* ===================================================================== *)

Lemma process_contour_noise st c :
  Qgtb (contourArea c) 500 = false -> process_contour st c = Ok st.
Proof. intros H. unfold process_contour. by rewrite H. Qed.

Lemma contours_skip_noise cs : forall st,
  for_each cs process_contour st
  = for_each (filter (fun c => Qgtb (contourArea c) 500 = true) cs)
             process_contour st.
Proof.
  induction cs as [|c cs IH]; intros st; [reflexivity|].
  rewrite filter_cons. destruct (Qgtb (contourArea c) 500) eqn:Hbig.
  - rewrite decide_True by done. rewrite !for_each_cons.
    destruct (process_contour st c) as [st1|e]; [|reflexivity].
    rewrite !bind_Ok. apply IH.
  - rewrite decide_False by discriminate.
    rewrite for_each_cons, (process_contour_noise st c Hbig), bind_Ok. apply IH.
Qed.

(** X2: contours that do not pass the noise filter have no effect at all on a
    frame: dropping them from the input gives the same outcome, whether a
    result or an exception, for any lock table. *)
Theorem noise_contours_are_ignored (locks : gmap string bool) (cs : list contour) :
  play_frame locks cs
  = play_frame locks (filter (fun c => Qgtb (contourArea c) 500 = true) cs).
Proof. unfold play_frame. by rewrite contours_skip_noise. Qed.

(** X1: a frame whose contours are all noise (area at most 500), in
    particular a frame without contours, never raises, whatever the lock
    table holds (even an empty one): no sample starts, no circle is drawn,
    every pad ends not hit and unlocked, and entries of the lock table under
    other keys are kept. *)
Theorem quiet_frame_releases_every_lock (locks : gmap string bool)
    (cs : list contour) :
  Forall (fun c => (contourArea c <= 500)%Q) cs ->
  exists st,
    play_frame locks cs = Ok st
    /\ played st = [] /\ circles st = []
    /\ (forall name, name ∈ keys drum_zones ->
          drums_being_hit st !! name = Some false
          /\ sound_is_locked st !! name = Some false)
    /\ (forall name, name ∉ keys drum_zones ->
          sound_is_locked st !! name = locks !! name).
Proof.
  intros Hq. rewrite noise_contours_are_ignored.
  assert (filter (fun c => Qgtb (contourArea c) 500 = true) cs = []) as ->.
  { induction Hq as [|c cs Hc _ IH]; [reflexivity|].
    rewrite filter_cons, decide_False, IH; [reflexivity|].
    apply Qgtb_false in Hc. rewrite Hc. discriminate. }
  unfold play_frame. cbn [for_each]. rewrite bind_Ok.
  match goal with
  | |- context [for_each (keys drum_zones) reset_lock ?s] =>
      destruct (reset_locks_spec (keys drum_zones) s) as (st & E & H1 & H2 & H3 & H4)
  end.
  { intros n Hn. simpl. rewrite dict_fromkeys_lookup. decide_membership. eauto. }
  simpl in H1, H2, H3, H4.
  exists st. split; [exact E|]. split; [exact H2|]. split; [exact H3|].
  split; intros name Hn; rewrite ?H1, H4, dict_fromkeys_lookup; decide_membership.
  - rewrite (bool_decide_eq_true_2 (Some false = Some false)) by done. done.
  - done.
Qed.

Lemma quiet_frame_releases_every_lock_witness :
  exists st,
    play_frame ∅ [ {| contourArea := 500; boundingRect := (54, 420, 20, 20) |} ]
      = Ok st
    /\ sound_is_locked st !! "Kick" = Some false.
Proof.
  destruct (quiet_frame_releases_every_lock ∅
              [ {| contourArea := 500; boundingRect := (54, 420, 20, 20) |} ])
    as (st & E & _ & _ & H & _).
  - constructor; [|constructor]. unfold Qle; simpl; lia.
  - exists st. split; [exact E|]. apply H. rewrite keys_drum_zones. list_member.
Defined.

Lemma triggers_of_In name sounds :
  name ∈ sounds <-> (0 < triggers_of name sounds)%nat.
Proof.
  rewrite list_elem_of_In. unfold triggers_of.
  rewrite (count_occ_In String.string_dec). lia.
Qed.

Lemma played_spec (locks : gmap string bool) (cs : list contour) :
  locks_cover_zones locks ->
  exists st,
    play_frame locks cs = Ok st
    /\ NoDup (played st)
    /\ (forall name,
          name ∈ played st
          <-> name ∈ keys drum_zones
              /\ is_hit st name = true
              /\ locks !! name = Some false).
Proof.
  intros Hcov.
  destruct (play_frame_spec locks cs Hcov) as (st & E & _ & Hin & Hout).
  exists st. split; [exact E|].
  assert (Hcount : forall name,
            triggers_of name (played st)
            = if bool_decide (name ∈ keys drum_zones)
                 && (is_hit st name && bool_decide (locks !! name = Some false))
              then 1%nat else 0%nat).
  { intros name. destruct (decide (name ∈ keys drum_zones)) as [Hn|Hn];
      decide_membership; simpl.
    - rewrite (is_hit_frame locks cs st name Hcov E Hn).
      by destruct (Hin name Hn) as (_ & _ & ->).
    - by destruct (Hout name Hn) as (_ & _ & ->). }
  split.
  - apply NoDup_ListNoDup. apply (NoDup_count_occ String.string_dec).
    intros name. fold (triggers_of name (played st)). rewrite Hcount.
    destruct (_ && _); lia.
  - intros name. rewrite triggers_of_In, Hcount. split.
    + intros Hpos.
      destruct (bool_decide (name ∈ keys drum_zones)) eqn:E1; [|simpl in Hpos; lia].
      destruct (is_hit st name) eqn:E2; [|simpl in Hpos; lia].
      destruct (bool_decide (locks !! name = Some false)) eqn:E3;
        [|simpl in Hpos; lia].
      apply bool_decide_eq_true in E1, E3. done.
    + intros (H1 & H2 & H3). rewrite H2.
      rewrite !bool_decide_eq_true_2 by done. simpl. lia.
Qed.

(** X3: a frame starts each sample at most once, and it starts exactly the
    samples of the pads that are hit in the frame and were unlocked before
    it. *)
Theorem frame_starts_each_sample_at_most_once (locks : gmap string bool)
    (cs : list contour) :
  locks_cover_zones locks ->
  exists st,
    play_frame locks cs = Ok st
    /\ NoDup (played st)
    /\ (forall name,
          name ∈ played st
          <-> name ∈ keys drum_zones
              /\ is_hit st name = true
              /\ locks !! name = Some false).
Proof. apply played_spec. Qed.

Lemma frame_starts_each_sample_at_most_once_witness :
  exists st,
    play_frame initial_locks
      [ {| contourArea := 900; boundingRect := (180, 400, 30, 30) |};
        {| contourArea := 900; boundingRect := (190, 410, 30, 30) |} ] = Ok st
    /\ played st = ["Snare"].
Proof.
  destruct (frame_starts_each_sample_at_most_once initial_locks
              [ {| contourArea := 900; boundingRect := (180, 400, 30, 30) |};
                {| contourArea := 900; boundingRect := (190, 410, 30, 30) |} ]
              initial_locks_cover) as (st & E & _).
  exists st. split; [exact E|]. evaluate_from E. vm_compute. reflexivity.
Defined.

Lemma existsb_Permutation {A} (f : A -> bool) l l' :
  Permutation l l' -> existsb f l = existsb f l'.
Proof.
  intros HP. induction HP; simpl.
  - reflexivity.
  - by rewrite IHHP.
  - by rewrite !orb_assoc, (orb_comm (f y)).
  - congruence.
Qed.

(** X4: the order in which the contours of a frame are listed does not
    matter: two listings of the same contours give the same hit flags, the
    same locks and the same circles up to order, and start the same samples,
    possibly in another order. *)
Theorem frame_ignores_contour_order (locks : gmap string bool)
    (cs cs' : list contour) :
  locks_cover_zones locks -> Permutation cs cs' ->
  exists st st',
    play_frame locks cs = Ok st /\ play_frame locks cs' = Ok st'
    /\ drums_being_hit st = drums_being_hit st'
    /\ sound_is_locked st = sound_is_locked st'
    /\ Permutation (played st) (played st')
    /\ Permutation (circles st) (circles st').
Proof.
  intros Hcov HP.
  destruct (play_frame_spec locks cs Hcov) as (st & E & C & Hin & Hout).
  destruct (play_frame_spec locks cs' Hcov) as (st' & E' & C' & Hin' & Hout').
  exists st, st'. split; [exact E|]. split; [exact E'|].
  assert (Hex : forall k, existsb (object_hits k) cs = existsb (object_hits k) cs')
    by (intros k; by apply existsb_Permutation).
  split; [|split; [|split]].
  - apply map_eq. intros k. destruct (decide (k ∈ keys drum_zones)) as [Hk|Hk].
    + destruct (Hin k Hk) as (-> & _), (Hin' k Hk) as (-> & _). by rewrite Hex.
    + destruct (Hout k Hk) as (-> & _), (Hout' k Hk) as (-> & _). done.
  - apply map_eq. intros k. destruct (decide (k ∈ keys drum_zones)) as [Hk|Hk].
    + destruct (Hin k Hk) as (_ & -> & _), (Hin' k Hk) as (_ & -> & _).
      by rewrite Hex.
    + destruct (Hout k Hk) as (_ & -> & _), (Hout' k Hk) as (_ & -> & _). done.
  - apply (Permutation_count_occ String.string_dec). intros k.
    fold (triggers_of k (played st)). fold (triggers_of k (played st')).
    destruct (decide (k ∈ keys drum_zones)) as [Hk|Hk].
    + destruct (Hin k Hk) as (_ & _ & ->), (Hin' k Hk) as (_ & _ & ->).
      by rewrite Hex.
    + destruct (Hout k Hk) as (_ & _ & ->), (Hout' k Hk) as (_ & _ & ->). done.
  - rewrite C, C'. unfold detected_objects.
    apply Permutation_map. by apply filter_Permutation.
Qed.

Lemma frame_ignores_contour_order_witness :
  exists st st',
    play_frame initial_locks
      [ {| contourArea := 900; boundingRect := (180, 400, 30, 30) |};
        {| contourArea := 700; boundingRect := (40, 20, 30, 30) |} ] = Ok st
    /\ play_frame initial_locks
         [ {| contourArea := 700; boundingRect := (40, 20, 30, 30) |};
           {| contourArea := 900; boundingRect := (180, 400, 30, 30) |} ] = Ok st'
    /\ played st = ["Snare"; "Crash"] /\ played st' = ["Crash"; "Snare"]
    /\ sound_is_locked st = sound_is_locked st'.
Proof.
  destruct (frame_ignores_contour_order initial_locks
              [ {| contourArea := 900; boundingRect := (180, 400, 30, 30) |};
                {| contourArea := 700; boundingRect := (40, 20, 30, 30) |} ]
              [ {| contourArea := 700; boundingRect := (40, 20, 30, 30) |};
                {| contourArea := 900; boundingRect := (180, 400, 30, 30) |} ]
              initial_locks_cover)
    as (st & st' & E & E' & _ & Hl & _).
  - apply perm_swap.
  - exists st, st'. split; [exact E|]. split; [exact E'|].
    split; [evaluate_from E; vm_compute; reflexivity|].
    split; [evaluate_from E'; vm_compute; reflexivity|]. exact Hl.
Defined.

Lemma keeps_tables_refl st : keeps_tables st st.
Proof. repeat split; auto. Qed.

Lemma keeps_tables_trans st st1 st2 :
  keeps_tables st st1 -> keeps_tables st1 st2 -> keeps_tables st st2.
Proof.
  intros (A1 & B1 & C1 & D1) (A2 & B2 & C2 & D2). repeat split.
  - intros H. by apply A1, A2.
  - intros H. by apply A2, A1.
  - auto.
  - auto.
  - intros k H. destruct (D2 k H) as [H'|H'].
    + by apply D1.
    + right. by apply A1.
Qed.

Lemma for_each_ends_well {A} (touches : A -> string -> Prop) body (xs : list A) :
  (forall st x, x ∈ xs -> ends_well touches [x] st (body st x)) ->
  forall st, ends_well touches xs st (for_each xs body st).
Proof.
  induction xs as [|x xs IH]; intros Hbody st.
  - simpl. split; [apply keeps_tables_refl|].
    intros y name Hy. by apply elem_of_nil in Hy.
  - rewrite for_each_cons.
    pose proof (Hbody st x ltac:(left)) as Hx.
    destruct (body st x) as [st1|e]; simpl in Hx.
    + rewrite bind_Ok. destruct Hx as [K1 T1].
      specialize (IH (fun st y Hy => Hbody st y ltac:(by right)) st1).
      destruct (for_each xs body st1) as [st2|e]; simpl in IH |- *.
      * destruct IH as [K2 T2]. split; [by eapply keeps_tables_trans|].
        intros y name Hy Ht. apply elem_of_cons in Hy as [->|Hy].
        -- destruct K2 as (_ & _ & Hmono & _). apply Hmono.
           apply (T1 x name); [left|done].
        -- by apply (T2 y name).
      * destruct IH as (y & name & Hy & Ht & -> & Hnone).
        exists y, name. split; [by right|]. split; [done|]. split; [done|].
        destruct K1 as (Hdom & _).
        destruct (sound_is_locked st !! name) eqn:El; [|done].
        assert (is_Some (sound_is_locked st1 !! name)) as [? Hs]
          by (apply Hdom; eauto).
        congruence.
    + destruct Hx as (y & name & Hy & Ht & -> & Hnone).
      exists y, name. apply list_elem_of_singleton in Hy as ->.
      split; [left|]. done.
Qed.

Lemma check_zone_ends_well cx cy st name zp :
  name ∈ keys drum_zones ->
  ends_well (fun e k => fst e = k
                        /\ is_point_inside_zone cx cy (box (snd e)) = true)
            [(name, zp)] st (check_zone cx cy st (name, zp)).
Proof.
  intros Hn. unfold check_zone.
  destruct (is_point_inside_zone cx cy (box zp)) eqn:Hin.
  - destruct (sound_is_locked st !! name) as [locked|] eqn:Hl.
    + assert (Hgoal : forall lock',
                (forall k, is_Some (lock' !! k) <-> is_Some (sound_is_locked st !! k)) ->
                forall p c,
                ends_well (fun e k => fst e = k
                             /\ is_point_inside_zone cx cy (box (snd e)) = true)
                  [(name, zp)] st
                  (Ok {| drums_being_hit := <[name := true]> (drums_being_hit st);
                         sound_is_locked := lock';
                         played := p; circles := c |})).
      { intros lock' Hdom p c. simpl. split.
        - split; [exact Hdom|]. split; [|split]; simpl.
          + intros k Hk. destruct (decide (name = k)) as [->|Hne].
            * rewrite lookup_insert_eq. eauto.
            * by rewrite lookup_insert_ne.
          + intros k Hk. destruct (decide (name = k)) as [->|Hne].
            * by rewrite lookup_insert_eq.
            * by rewrite lookup_insert_ne.
          + intros k Hk. destruct (decide (name = k)) as [<-|Hne].
            * right. eauto.
            * left. by rewrite lookup_insert_ne in Hk.
        - intros e k He [<- _]. apply list_elem_of_singleton in He as ->.
          simpl. apply lookup_insert_eq. }
      rewrite (getitem_Some _ _ _ Hl), bind_Ok. destruct locked; cbn [negb].
      * refine (Hgoal _ _ _ _). intros k. reflexivity.
      * destruct (drum_sounds_cover name Hn) as [snd Hs].
        rewrite (getitem_Some _ _ _ Hs), bind_Ok.
        refine (Hgoal _ _ _ _). intros k. destruct (decide (name = k)) as [<-|Hne].
        -- rewrite lookup_insert_eq, Hl. split; eauto.
        -- by rewrite lookup_insert_ne.
    + unfold getitem. rewrite Hl. simpl.
      exists (name, zp), name. split; [left|]. done.
  - simpl. split; [apply keeps_tables_refl|].
    intros e k He [_ Hins]. apply list_elem_of_singleton in He as ->.
    simpl in Hins. congruence.
Qed.

Lemma process_contour_ends_well st c :
  ends_well (fun c k => object_hits k c = true) [c] st (process_contour st c).
Proof.
  unfold process_contour.
  destruct (Qgtb (contourArea c) 500) eqn:Hbig.
  - destruct (centroid c) as [cx cy] eqn:Hc.
    match goal with
    | |- context [for_each drum_zones _ ?s] =>
        pose proof (for_each_ends_well
                      (fun e k => fst e = k
                         /\ is_point_inside_zone cx cy (box (snd e)) = true)
                      (check_zone cx cy) drum_zones) as Hz;
        specialize (Hz (fun st e He =>
                          ltac:(destruct e as [n z];
                                apply check_zone_ends_well;
                                by eapply elem_of_keys)) s)
    end.
    match goal with
    | |- context [for_each drum_zones ?b ?s] =>
        destruct (for_each drum_zones b s) as [st'|e]
    end; simpl in Hz |- *.
    + destruct Hz as [K T]. split; [exact K|].
      intros c' k Hc' Hob. apply list_elem_of_singleton in Hc' as ->.
      unfold object_hits in Hob. rewrite Hbig, Hc, andb_true_l in Hob.
      unfold zone_contains in Hob. cbn [fst snd] in Hob.
      apply existsb_exists in Hob as (e & He & Hob).
      apply andb_true_iff in Hob as [Hk Hins].
      apply bool_decide_eq_true in Hk.
      apply (T e k); [by apply list_elem_of_In | done].
    + destruct Hz as (e' & k & He & [Hk Hins] & -> & Hnone).
      exists c, k. split; [left|]. split; [|done].
      unfold object_hits. rewrite Hbig, Hc, andb_true_l.
      unfold zone_contains. cbn [fst snd].
      apply existsb_exists. exists e'. split; [by apply list_elem_of_In|].
      by rewrite bool_decide_eq_true_2, Hins.
  - simpl. split; [apply keeps_tables_refl|].
    intros c' k Hc' Hob. apply list_elem_of_singleton in Hc' as ->.
    unfold object_hits in Hob. by rewrite Hbig in Hob.
Qed.

(** X6: for any lock table, a play frame either returns or raises a
    [KeyError]; it raises exactly when some contour that passes the noise
    filter lies in a pad for which the lock table has no entry, the error
    names such a pad, and when the frame returns the lock table has an entry
    for every pad. *)
Theorem frame_fails_only_on_missing_lock (locks : gmap string bool)
    (cs : list contour) :
  match play_frame locks cs with
  | Ok st =>
      locks_cover_zones (sound_is_locked st)
      /\ (forall c name, c ∈ cs -> object_hits name c = true ->
            is_Some (locks !! name))
  | Raise e =>
      exists c name,
        c ∈ cs /\ object_hits name c = true
        /\ locks !! name = None /\ e = KeyError name
  end.
Proof.
  unfold play_frame.
  match goal with
  | |- context [for_each cs process_contour ?s] =>
      pose proof (for_each_ends_well (fun c k => object_hits k c = true)
                    process_contour cs
                    (fun st c _ => process_contour_ends_well st c) s) as Hc;
      destruct (for_each cs process_contour s) as [st1|e]
  end; unfold ends_well, keeps_tables in Hc;
       cbn [drums_being_hit sound_is_locked] in Hc.
  - rewrite bind_Ok. destruct Hc as [(Hdom & Hdef & _ & Hnew) Htouch].
    destruct (reset_locks_spec (keys drum_zones) st1) as (st2 & E & H1 & _ & _ & H4).
    { intros n Hn. apply Hdef. rewrite dict_fromkeys_lookup. decide_membership.
      eauto. }
    rewrite E.
    assert (Hfresh : forall k, drums_being_hit st1 !! k = Some true ->
                               is_Some (locks !! k)).
    { intros k Hk. destruct (Hnew k Hk) as [H0|H0]; [|exact H0].
      rewrite dict_fromkeys_lookup in H0. by case_bool_decide. }
    split.
    + intros n Hn. rewrite H4. decide_membership. rewrite andb_true_l.
      destruct (Hdef n) as [[] Hb].
      { rewrite dict_fromkeys_lookup. decide_membership. eauto. }
      * rewrite Hb.
        rewrite (bool_decide_eq_false_2 (Some true = Some false)) by discriminate.
        apply Hdom. by apply Hfresh.
      * rewrite Hb. rewrite bool_decide_eq_true_2 by done. eauto.
    + intros c name Hc Hob. apply Hfresh. by apply (Htouch c name).
  - destruct Hc as (c & name & Hc & Hob & -> & Hnone).
    by exists c, name.
Qed.

Example frame_with_empty_lock_table :
  play_frame ∅ [ {| contourArea := 900; boundingRect := (180, 400, 30, 30) |} ]
  = Raise (KeyError "Snare").
Proof. vm_compute. reflexivity. Qed.

(** X20: what a play frame leaves behind depends on the contours of that
    frame only: from any two lock tables that cover the pads, the same
    contours give the same hit flags, the same circles and the same lock flag
    for every pad; older frames are forgotten. *)
Theorem locks_follow_the_last_frame (locks1 locks2 : gmap string bool)
    (cs : list contour) :
  locks_cover_zones locks1 -> locks_cover_zones locks2 ->
  exists st1 st2,
    play_frame locks1 cs = Ok st1 /\ play_frame locks2 cs = Ok st2
    /\ drums_being_hit st1 = drums_being_hit st2
    /\ circles st1 = circles st2
    /\ (forall name, name ∈ keys drum_zones ->
          sound_is_locked st1 !! name = sound_is_locked st2 !! name
          /\ sound_is_locked st1 !! name = drums_being_hit st1 !! name).
Proof.
  intros H1 H2.
  destruct (play_frame_spec locks1 cs H1) as (st1 & E1 & C1 & Hin1 & Hout1).
  destruct (play_frame_spec locks2 cs H2) as (st2 & E2 & C2 & Hin2 & Hout2).
  exists st1, st2. split; [exact E1|]. split; [exact E2|].
  split; [|split; [congruence|]].
  - apply map_eq. intros k. destruct (decide (k ∈ keys drum_zones)) as [Hk|Hk].
    + destruct (Hin1 k Hk) as (-> & _), (Hin2 k Hk) as (-> & _). done.
    + destruct (Hout1 k Hk) as (-> & _), (Hout2 k Hk) as (-> & _). done.
  - intros name Hn.
    destruct (Hin1 name Hn) as (-> & -> & _), (Hin2 name Hn) as (_ & -> & _).
    done.
Qed.

Lemma locks_follow_the_last_frame_witness :
  exists st1 st2,
    play_frame initial_locks
      [ {| contourArea := 900; boundingRect := (180, 400, 30, 30) |} ] = Ok st1
    /\ play_frame (<["Snare" := true]> (<["Crash" := true]> initial_locks))
         [ {| contourArea := 900; boundingRect := (180, 400, 30, 30) |} ] = Ok st2
    /\ sound_is_locked st1 !! "Crash" = sound_is_locked st2 !! "Crash"
    /\ played st1 = ["Snare"] /\ played st2 = [].
Proof.
  destruct (locks_follow_the_last_frame initial_locks
              (<["Snare" := true]> (<["Crash" := true]> initial_locks))
              [ {| contourArea := 900; boundingRect := (180, 400, 30, 30) |} ]
              initial_locks_cover)
    as (st1 & st2 & E1 & E2 & _ & _ & H).
  - intros name Hn. rewrite keys_drum_zones in Hn.
    repeat (apply elem_of_cons in Hn as [->|Hn]; [by vm_compute; eexists|]).
    by apply elem_of_nil in Hn.
  - exists st1, st2. split; [exact E1|]. split; [exact E2|].
    split; [apply H; rewrite keys_drum_zones; list_member|].
    split; [evaluate_from E1 | evaluate_from E2]; vm_compute; reflexivity.
Defined.

(* ===================================================================== *)
(** ** Layout of the pads *)
(* ===================================================================== *)

(** Splits a membership in [drum_zones] into its six cases. *)
Ltac zone_cases H :=
  rewrite drum_zones_eq in H;
  repeat (apply elem_of_cons in H as [H|H]; [injection H as -> ->|]);
  [ .. | by apply elem_of_nil in H ].

Ltac inside_facts :=
  repeat match goal with
  | H : is_point_inside_zone _ _ (box _) = true |- _ =>
      cbn [box] in H; apply is_point_inside_zone_iff in H
  end.

Lemma no_point_in_three_pads px py n1 z1 n2 z2 n3 z3 :
  (n1, z1) ∈ drum_zones -> (n2, z2) ∈ drum_zones -> (n3, z3) ∈ drum_zones ->
  n1 <> n2 -> n1 <> n3 -> n2 <> n3 ->
  is_point_inside_zone px py (box z1) = true ->
  is_point_inside_zone px py (box z2) = true ->
  is_point_inside_zone px py (box z3) = true ->
  False.
Proof.
  intros H1 H2 H3 D12 D13 D23 I1 I2 I3.
  zone_cases H1; zone_cases H2; try congruence; inside_facts; try lia;
    zone_cases H3; try congruence; inside_facts; lia.
Qed.

(** X7: two different pads have a point in common only if both are
    bottom-row pads that are neighbours and the point lies on the column
    where one ends and the other begins; and no point lies in three pads. *)
Theorem pads_meet_only_on_a_shared_edge (px py : Z)
    (n1 n2 : string) (z1 z2 : zone_properties) :
  (n1, z1) ∈ drum_zones -> (n2, z2) ∈ drum_zones -> n1 <> n2 ->
  is_point_inside_zone px py (box z1) = true ->
  is_point_inside_zone px py (box z2) = true ->
  is_crash z1 = false /\ is_crash z2 = false
  /\ (let '(l1, _, r1, _) := box z1 in
      let '(l2, _, r2, _) := box z2 in
      (px = r1 /\ r1 = l2) \/ (px = l1 /\ l1 = r2))
  /\ (forall n3 z3,
        (n3, z3) ∈ drum_zones -> n3 <> n1 -> n3 <> n2 ->
        is_point_inside_zone px py (box z3) = false).
Proof.
  intros H1 H2 D I1 I2.
  assert (Hthird : forall n3 z3,
            (n3, z3) ∈ drum_zones -> n3 <> n1 -> n3 <> n2 ->
            is_point_inside_zone px py (box z3) = false).
  { intros n3 z3 H3 D1 D2.
    destruct (is_point_inside_zone px py (box z3)) eqn:I3; [|reflexivity].
    exfalso. eapply (no_point_in_three_pads px py n1 z1 n2 z2 n3 z3); eauto. }
  split; [|split; [|split; [|exact Hthird]]]; clear Hthird.
  all: zone_cases H1; zone_cases H2; try congruence; inside_facts;
       try lia; try reflexivity.
  all: cbn [box]; lia.
Qed.

Lemma pads_meet_only_on_a_shared_edge_witness :
  is_point_inside_zone 256 400 (256, 380, 384, 480) = true
  /\ is_point_inside_zone 256 400 (0, 0, 160, 100) = false.
Proof.
  destruct (pads_meet_only_on_a_shared_edge 256 400 "Snare" "Hi-Hat"
              {| box := (128, 380, 256, 480); strike_y := None; is_crash := false |}
              {| box := (256, 380, 384, 480); strike_y := None; is_crash := false |})
    as (_ & _ & _ & H).
  - rewrite drum_zones_eq. list_member.
  - rewrite drum_zones_eq. list_member.
  - discriminate.
  - reflexivity.
  - reflexivity.
  - split; [reflexivity|].
    apply (H "Crash" {| box := (0, 0, 160, 100); strike_y := None; is_crash := true |}).
    + rewrite drum_zones_eq. list_member.
    + discriminate.
    + discriminate.
Defined.

Lemma zone_contains_zone zones name p :
  zone_contains zones name p = true ->
  exists zp, (name, zp) ∈ zones
             /\ is_point_inside_zone (fst p) (snd p) (box zp) = true.
Proof.
  unfold zone_contains. intros H.
  apply existsb_exists in H as ([n zp] & Hin & H).
  apply andb_true_iff in H as [Hn Hins]. apply bool_decide_eq_true in Hn.
  simpl in Hn. subst n. exists zp. split; [by apply list_elem_of_In | done].
Qed.

(** X8: a single detected object starts at most two samples in a frame,
    whatever the locks are; a frame never starts more samples than there are
    pads. *)
Theorem one_object_starts_at_most_two_samples (locks : gmap string bool)
    (cs : list contour) :
  locks_cover_zones locks ->
  exists st,
    play_frame locks cs = Ok st
    /\ (length (played st) <= length drum_zones)%nat
    /\ (forall c, cs = [c] -> (length (played st) <= 2)%nat).
Proof.
  intros Hcov.
  destruct (played_spec locks cs Hcov) as (st & E & Hnd & Hpl).
  exists st. split; [exact E|]. split.
  - replace (length drum_zones) with (length (keys drum_zones))
      by (unfold keys; apply length_map).
    apply NoDup_ListNoDup in Hnd.
    apply (NoDup_incl_length Hnd).
    intros n Hn. apply list_elem_of_In. apply list_elem_of_In in Hn.
    by apply Hpl in Hn as (? & _).
  - intros c ->.
    assert (Hzone : forall n, n ∈ played st ->
              exists zp, (n, zp) ∈ drum_zones
                         /\ is_point_inside_zone (fst (centroid c)) (snd (centroid c))
                                                 (box zp) = true).
    { intros n Hn. apply Hpl in Hn as (Hk & Hh & _).
      rewrite (is_hit_frame locks [c] st n Hcov E Hk) in Hh.
      simpl in Hh. rewrite orb_false_r in Hh.
      unfold object_hits in Hh. apply andb_true_iff in Hh as [_ Hz].
      by apply zone_contains_zone. }
    destruct (played st) as [|a [|b [|d rest]]]; simpl; try lia.
    exfalso.
    apply NoDup_cons in Hnd as [Ha Hnd]. apply NoDup_cons in Hnd as [Hb _].
    destruct (Hzone a) as (za & Hza & Ia); [list_member|].
    destruct (Hzone b) as (zb & Hzb & Ib); [list_member|].
    destruct (Hzone d) as (zd & Hzd & Id); [list_member|].
    eapply (no_point_in_three_pads _ _ a za b zb d zd); eauto.
    + intros ->. apply Ha. left.
    + intros ->. apply Ha. right. left.
    + intros ->. apply Hb. left.
Qed.

Lemma one_object_starts_at_most_two_samples_witness :
  exists st,
    play_frame initial_locks
      [ {| contourArea := 650; boundingRect := (113, 415, 30, 30) |} ] = Ok st
    /\ length (played st) = 2%nat.
Proof.
  destruct (one_object_starts_at_most_two_samples initial_locks
              [ {| contourArea := 650; boundingRect := (113, 415, 30, 30) |} ]
              initial_locks_cover) as (st & E & _).
  exists st. split; [exact E|]. evaluate_from E. vm_compute. reflexivity.
Defined.

(* ===================================================================== *)
(** ** More on the image loader *)
(* ===================================================================== *)

Lemma load_drum_image_ok (cv : OpenCV) file_path w h :
  OpenCV_contract cv -> 0 <= w -> 0 <= h ->
  exists img, load_drum_image file_path w h = Ok img /\ shape img = [h; w; 3].
Proof.
  intros Hcv Hw Hh. unfold load_drum_image.
  destruct (try_load_drum_image file_path w h) as [[loaded|]|e] eqn:Et.
  - exists loaded. split; [reflexivity|]. eapply try_load_drum_image_shape; eauto.
  - by apply make_placeholder_ok.
  - by apply make_placeholder_ok.
Qed.

(** X9: an image file that decodes and resizes to three channels is returned
    as resized, and one with four channels is returned after the alpha channel
    is dropped; in neither case is the placeholder built. *)
Theorem loader_returns_color_images (cv : OpenCV) (file_path : string)
    (w h : Z) (decoded resized : ndarray) :
  OpenCV_contract cv ->
  imread file_path = Ok (Some decoded) ->
  resize decoded (w, h) = Ok resized ->
  (shape resized = [h; w; 3] -> load_drum_image file_path w h = Ok resized)
  /\ (forall converted,
        shape resized = [h; w; 4] ->
        cvtColor_BGRA2BGR resized = Ok converted ->
        load_drum_image file_path w h = Ok converted
        /\ shape converted = [h; w; 3]).
Proof.
  intros (_ & Hcvt & _) Hread Hresize. split.
  - intros Hs. unfold load_drum_image, try_load_drum_image, shape_at.
    rewrite Hread, bind_Ok, Hresize, bind_Ok, Hs. simpl.
    rewrite Hs. reflexivity.
  - intros converted Hs Hc.
    pose proof (Hcvt _ _ Hc) as Hs'. rewrite Hs in Hs'. simpl in Hs'.
    split; [|exact Hs'].
    unfold load_drum_image, try_load_drum_image, shape_at.
    rewrite Hread, bind_Ok, Hresize, bind_Ok, Hs. simpl.
    rewrite Hc, bind_Ok, Hs'. reflexivity.
Qed.

Lemma loader_returns_color_images_witness :
  @load_drum_image bgra_disk "assets/images/tom.png" 128 100
  = Ok {| shape := [100; 128; 3];
          data := Bgra2Bgr (Resized (Decoded "assets/images/tom.png") (128, 100)) |}.
Proof.
  destruct (loader_returns_color_images bgra_disk "assets/images/tom.png" 128 100
              {| shape := [200; 300; 4]; data := Decoded "assets/images/tom.png" |}
              {| shape := [100; 128; 4];
                 data := Resized (Decoded "assets/images/tom.png") (128, 100) |}
              (model_operations_contract _) eq_refl eq_refl) as [_ H].
  destruct (H {| shape := [100; 128; 3];
                 data := Bgra2Bgr (Resized (Decoded "assets/images/tom.png")
                                           (128, 100)) |}
              eq_refl eq_refl) as [E _].
  exact E.
Defined.

(** X10: a file that decodes but is not a three or four channel image after
    resizing (a grayscale image, whose array has two axes, or any other
    channel count), or whose resizing or conversion raises, is not an error
    for the caller: the loader answers with the placeholder. *)
Theorem loader_replaces_other_images (cv : OpenCV) (file_path : string)
    (w h : Z) (decoded : ndarray) :
  imread file_path = Ok (Some decoded) ->
  (forall e, resize decoded (w, h) = Raise e ->
     load_drum_image file_path w h = make_placeholder w h)
  /\ (forall resized,
        resize decoded (w, h) = Ok resized ->
        (length (shape resized) < 3)%nat
        \/ (exists c, shape resized !! 2%nat = Some c /\ c <> 3 /\ c <> 4)
        \/ (exists e, shape resized !! 2%nat = Some 4
                      /\ cvtColor_BGRA2BGR resized = Raise e) ->
        load_drum_image file_path w h = make_placeholder w h).
Proof.
  intros Hread. split.
  - intros e Hr. unfold load_drum_image, try_load_drum_image.
    by rewrite Hread, bind_Ok, Hr.
  - intros resized Hr Hcase.
    unfold load_drum_image, try_load_drum_image, shape_at.
    rewrite Hread, bind_Ok, Hr, bind_Ok.
    destruct Hcase as [Hlen | [(c & Hc & H3 & H4) | (e & Hc & He)]].
    + rewrite (proj2 (lookup_ge_None (shape resized) 2%nat)) by lia.
      reflexivity.
    + rewrite Hc, bind_Ok.
      rewrite (proj2 (Z.eqb_neq c 4) H4), bind_Ok, Hc, bind_Ok.
      by rewrite (proj2 (Z.eqb_neq c 3) H3).
    + rewrite Hc, bind_Ok. simpl. by rewrite He.
Qed.

Lemma loader_replaces_other_images_witness :
  let gray_disk :=
    {| imread := fun p => Ok (Some {| shape := [200; 300]; data := Decoded p |});
       resize := model_resize;
       cvtColor_BGRA2BGR := model_cvtColor_BGRA2BGR;
       putText := model_putText |} in
  @load_drum_image gray_disk "assets/images/hi_hat.png" 128 100
  = Ok {| shape := [100; 128; 3]; data := Text Zeros "NO IMAGE" (14, 55) |}.
Proof.
  intros gray_disk.
  destruct (loader_replaces_other_images gray_disk "assets/images/hi_hat.png"
              128 100
              {| shape := [200; 300]; data := Decoded "assets/images/hi_hat.png" |}
              eq_refl) as [_ H].
  rewrite (H {| shape := [100; 128];
                data := Resized (Decoded "assets/images/hi_hat.png") (128, 100) |}
             eq_refl).
  - reflexivity.
  - left. simpl. lia.
Defined.

Lemma drum_image_paths_cover name :
  name ∈ keys drum_zones -> is_Some (drum_image_paths !! name).
Proof.
  rewrite keys_drum_zones. intros Hin.
  repeat (apply elem_of_cons in Hin as [->|Hin]; [by eexists|]).
  by apply elem_of_nil in Hin.
Qed.

Lemma zone_sizes name zp :
  (name, zp) ∈ drum_zones ->
  let '(x1, y1, x2, y2) := box zp in
  0 <= x1 /\ 0 <= y1 /\ 1 < x2 - x1 /\ 1 < y2 - y1
  /\ x2 <= WINDOW_WIDTH /\ y2 <= WINDOW_HEIGHT.
Proof.
  intros H. zone_cases H; cbn [box]; unfold WINDOW_WIDTH, WINDOW_HEIGHT; lia.
Qed.

Lemma preload_loop (cv : OpenCV) zones :
  OpenCV_contract cv ->
  (forall e, e ∈ zones -> e ∈ drum_zones) ->
  NoDup (keys zones) ->
  forall images0 : gmap string ndarray,
  exists images,
    for_each zones
      (fun (drum_images : gmap string ndarray) '(drum_name, zone_props) =>
         let '(x1, y1, x2, y2) := box zone_props in
         let width := x2 - x1 in
         let height := y2 - y1 in
         file_path ← getitem drum_image_paths drum_name;
         image ← load_drum_image file_path width height;
         Ok (<[drum_name := image]> drum_images))
      images0 = Ok images
    /\ (forall name zp, (name, zp) ∈ zones ->
          exists img,
            images !! name = Some img
            /\ (let '(x1, y1, x2, y2) := box zp in
                shape img = [y2 - y1; x2 - x1; 3]))
    /\ (forall name, name ∉ keys zones -> images !! name = images0 !! name).
Proof.
  intros Hcv. induction zones as [|[n z] zones IH]; intros Hsub Hnd images0.
  - exists images0. split; [reflexivity|]. split; [|done].
    intros name zp H. by apply elem_of_nil in H.
  - simpl in Hnd. apply NoDup_cons in Hnd as [Hfresh Hnd].
    assert (Hz : (n, z) ∈ drum_zones) by (apply Hsub; left).
    pose proof (zone_sizes n z Hz) as Hsz.
    destruct (drum_image_paths_cover n (elem_of_keys _ _ _ Hz)) as [path Hp].
    rewrite for_each_cons.
    destruct (box z) as [[[x1 y1] x2] y2] eqn:Hb.
    destruct (load_drum_image_ok cv path (x2 - x1) (y2 - y1) Hcv)
      as (img & El & Hs); [lia | lia |].
    rewrite (getitem_Some _ _ _ Hp), bind_Ok, El, !bind_Ok.
    destruct (IH (fun e He => Hsub e ltac:(by right)) Hnd (<[n := img]> images0))
      as (images & E & Hin & Hout).
    exists images. split; [exact E|]. split.
    + intros name zp H. apply elem_of_cons in H as [H|H].
      * injection H as -> ->. exists img. rewrite Hout by done.
        rewrite lookup_insert_eq, Hb. done.
      * by apply Hin.
    + intros name Hname. rewrite Hout.
      * apply lookup_insert_ne. intros ->. apply Hname. left.
      * intros H. apply Hname. by right.
Qed.

(** X11: loading the pad images at startup never fails, even when no image
    file can be read: every pad gets an image whose height and width are
    those of the pad and which has three channels, and no other key is
    entered in the table. *)
Theorem preload_gives_every_pad_an_image (cv : OpenCV) :
  OpenCV_contract cv ->
  exists drum_images,
    preload_drum_images = Ok drum_images
    /\ (forall name zp, (name, zp) ∈ drum_zones ->
          exists img,
            drum_images !! name = Some img
            /\ (let '(x1, y1, x2, y2) := box zp in
                shape img = [y2 - y1; x2 - x1; 3]))
    /\ (forall name, name ∉ keys drum_zones -> drum_images !! name = None).
Proof.
  intros Hcv.
  destruct (preload_loop cv drum_zones Hcv (fun e H => H) keys_drum_zones_NoDup ∅)
    as (images & E & Hin & Hout).
  exists images. split; [exact E|]. split; [exact Hin|].
  intros name Hn. by rewrite Hout.
Qed.

Lemma preload_gives_every_pad_an_image_witness :
  exists drum_images,
    @preload_drum_images unreadable_disk = Ok drum_images
    /\ shape <$> drum_images !! "Crash" = Some [100; 160; 3]
    /\ shape <$> drum_images !! "Tom2" = Some [100; 128; 3].
Proof.
  destruct (preload_gives_every_pad_an_image unreadable_disk
              (model_operations_contract _)) as (images & E & _).
  exists images. split; [exact E|].
  evaluate_from E. vm_compute. split; reflexivity.
Defined.

(* ===================================================================== *)
(** ** Drawing the pads on the frame *)
(* ===================================================================== *)

Lemma slice_length_fits n start len :
  0 <= start -> 0 <= len -> start + len <= n ->
  slice_length n start (start + len) = len.
Proof.
  intros H1 H2 H3. unfold slice_length, slice_index.
  rewrite !(proj2 (Z.ltb_ge _ 0)) by lia. lia.
Qed.

Lemma slice_length_clipped n start len :
  0 <= start -> 0 < len -> n < start + len ->
  slice_length n start (start + len) < len.
Proof.
  intros H1 H2 H3. unfold slice_length, slice_index.
  rewrite !(proj2 (Z.ltb_ge _ 0)) by lia. lia.
Qed.

Lemma overlay_on_color_frame frame_rows frame_cols drawn img_height img_width px
    (x_start y_start : Z) (is_being_hit : bool) :
  let main_frame := {| canvas_shape := [frame_rows; frame_cols; 3]; calls := drawn |} in
  let drum_image := {| shape := [img_height; img_width; 3]; data := px |} in
  overlay_drum_image_on_frame main_frame drum_image x_start y_start is_being_hit
  = if ((img_width =? slice_length frame_cols x_start (x_start + img_width))
        || (img_width =? 1))
       && (((img_height =? slice_length frame_rows y_start (y_start + img_height))
            || (img_height =? 1)) && true)
    then Ok (draw main_frame (Paste x_start y_start drum_image is_being_hit))
    else Raise ValueError.
Proof.
  intros main_frame drum_image.
  unfold overlay_drum_image_on_frame, region_shape, broadcastable. simpl.
  by destruct is_being_hit; destruct (_ && _).
Qed.

Lemma overlay_fits_or_raises
    (frame_rows frame_cols img_height img_width x_start y_start : Z)
    (drawn : list draw_call) (px : pixels) (is_being_hit : bool) :
  0 <= x_start -> 0 <= y_start -> 1 < img_height -> 1 < img_width ->
  let main_frame := {| canvas_shape := [frame_rows; frame_cols; 3]; calls := drawn |} in
  let drum_image := {| shape := [img_height; img_width; 3]; data := px |} in
  (y_start + img_height <= frame_rows /\ x_start + img_width <= frame_cols ->
     overlay_drum_image_on_frame main_frame drum_image x_start y_start is_being_hit
     = Ok (draw main_frame (Paste x_start y_start drum_image is_being_hit)))
  /\ (frame_rows < y_start + img_height \/ frame_cols < x_start + img_width ->
        overlay_drum_image_on_frame main_frame drum_image x_start y_start is_being_hit
        = Raise ValueError).
Proof.
  intros Hx Hy Hh Hw main_frame drum_image.
  unfold main_frame, drum_image. rewrite overlay_on_color_frame.
  rewrite (proj2 (Z.eqb_neq img_width 1)), (proj2 (Z.eqb_neq img_height 1)) by lia.
  rewrite !orb_false_r, andb_true_r. split.
  - intros [Hrows Hcols].
    rewrite !slice_length_fits by lia. by rewrite !Z.eqb_refl.
  - intros [Hrows | Hcols].
    + pose proof (slice_length_clipped frame_rows y_start img_height) as Hlt.
      rewrite (proj2 (Z.eqb_neq img_height _)) by lia.
      by rewrite andb_false_r.
    + pose proof (slice_length_clipped frame_cols x_start img_width) as Hlt.
      by rewrite (proj2 (Z.eqb_neq img_width _)) by lia.
Qed.

(** X12: pasting a three channel pad image, more than one pixel high and
    wide, at a corner [(x_start, y_start)] with non-negative coordinates of a
    three channel frame succeeds exactly when the image lies within the
    frame; when it sticks out on the right or at the bottom the assignment to
    the clipped region raises [ValueError], hit or not. *)
Theorem overlay_needs_the_image_inside_the_frame
    (frame_rows frame_cols img_height img_width x_start y_start : Z)
    (drawn : list draw_call) (px : pixels) (is_being_hit : bool) :
  0 <= x_start -> 0 <= y_start -> 1 < img_height -> 1 < img_width ->
  let main_frame := {| canvas_shape := [frame_rows; frame_cols; 3]; calls := drawn |} in
  let drum_image := {| shape := [img_height; img_width; 3]; data := px |} in
  (y_start + img_height <= frame_rows /\ x_start + img_width <= frame_cols ->
     overlay_drum_image_on_frame main_frame drum_image x_start y_start is_being_hit
     = Ok (draw main_frame (Paste x_start y_start drum_image is_being_hit)))
  /\ (frame_rows < y_start + img_height \/ frame_cols < x_start + img_width ->
        overlay_drum_image_on_frame main_frame drum_image x_start y_start is_being_hit
        = Raise ValueError).
Proof. apply overlay_fits_or_raises. Qed.

Lemma overlay_needs_the_image_inside_the_frame_witness :
  overlay_drum_image_on_frame
    {| canvas_shape := [240; 320; 3]; calls := [] |}
    {| shape := [100; 128; 3]; data := Zeros |} 256 380 false
  = Raise ValueError.
Proof.
  destruct (overlay_needs_the_image_inside_the_frame 240 320 100 128 256 380
              [] Zeros false) as [_ H]; try lia.
  apply H. lia.
Defined.

Lemma render_pad_step text_width_of drum_images locks frame_rows frame_cols drawn
    name zp img b :
  (name, zp) ∈ drum_zones ->
  drum_images !! name = Some img ->
  (let '(x1, y1, x2, y2) := box zp in shape img = [y2 - y1; x2 - x1; 3]) ->
  locks !! name = Some b ->
  let frame := {| canvas_shape := [frame_rows; frame_cols; 3]; calls := drawn |} in
  let '(x1, y1, x2, y2) := box zp in
  (y2 <= frame_rows /\ x2 <= frame_cols ->
     exists org color,
       render_pad text_width_of drum_images locks frame (name, zp)
       = Ok {| canvas_shape := [frame_rows; frame_cols; 3];
               calls := drawn ++ [Paste x1 y1 img b;
                                  PutText name org 1 color 2] |})
  /\ (frame_rows < y2 \/ frame_cols < x2 ->
        render_pad text_width_of drum_images locks frame (name, zp)
        = Raise ValueError).
Proof.
  intros Hz Hi Hs Hl frame. subst frame.
  pose proof (zone_sizes name zp Hz) as Hsz.
  unfold render_pad.
  destruct (box zp) as [[[x1 y1] x2] y2].
  rewrite (getitem_Some _ _ _ Hi), bind_Ok, (getitem_Some _ _ _ Hl), bind_Ok.
  destruct img as [sh px]. simpl in Hs. subst sh.
  destruct (overlay_fits_or_raises
              frame_rows frame_cols (y2 - y1) (x2 - x1) x1 y1 drawn px b)
    as [Hok Hbad]; try lia.
  split.
  - intros [Hr Hc]. rewrite Hok by lia. rewrite bind_Ok.
    eexists _, _. unfold draw. simpl. rewrite <- app_assoc. reflexivity.
  - intros Hout. rewrite Hbad by lia. reflexivity.
Qed.

Lemma render_pads_loop text_width_of drum_images locks frame_rows frame_cols zones :
  (forall e, e ∈ zones -> e ∈ drum_zones) ->
  (forall name zp, (name, zp) ∈ zones ->
     exists img b,
       drum_images !! name = Some img /\ locks !! name = Some b
       /\ (let '(x1, y1, x2, y2) := box zp in shape img = [y2 - y1; x2 - x1; 3])) ->
  forall drawn,
    let run :=
      for_each zones (render_pad text_width_of drum_images locks)
        {| canvas_shape := [frame_rows; frame_cols; 3]; calls := drawn |} in
    ((forall name zp, (name, zp) ∈ zones ->
        let '(_, _, x2, y2) := box zp in y2 <= frame_rows /\ x2 <= frame_cols) ->
     exists drawn',
       run = Ok {| canvas_shape := [frame_rows; frame_cols; 3]; calls := drawn' |}
       /\ (forall c, c ∈ drawn -> c ∈ drawn')
       /\ (forall name zp img b,
             (name, zp) ∈ zones ->
             drum_images !! name = Some img -> locks !! name = Some b ->
             let '(x1, y1, _, _) := box zp in Paste x1 y1 img b ∈ drawn'))
    /\ ((exists name zp,
           (name, zp) ∈ zones
           /\ (let '(_, _, x2, y2) := box zp in frame_rows < y2 \/ frame_cols < x2)) ->
        run = Raise ValueError).
Proof.
  induction zones as [|[n z] zones IH]; intros Hsub Hres drawn run; subst run.
  - split.
    + intros _. exists drawn. split; [reflexivity|]. split; [done|].
      intros name zp img b H. by apply elem_of_nil in H.
    + intros (name & zp & H & _). by apply elem_of_nil in H.
  - assert (Hz : (n, z) ∈ drum_zones) by (apply Hsub; left).
    destruct (Hres n z ltac:(left)) as (img & b & Hi & Hl & Hs).
    pose proof (render_pad_step text_width_of drum_images locks
                  frame_rows frame_cols drawn n z img b Hz Hi Hs Hl) as Hstep.
    cbv zeta in Hstep. rewrite for_each_cons. revert Hs Hstep.
    destruct (box z) as [[[x1 y1] x2] y2] eqn:Hb.
    intros Hs [Hok Hbad].
    assert (Htail_sub : forall e, e ∈ zones -> e ∈ drum_zones)
      by (intros e He; apply Hsub; by right).
    assert (Htail_res : forall name zp, (name, zp) ∈ zones ->
              exists img b,
                drum_images !! name = Some img /\ locks !! name = Some b
                /\ (let '(x1, y1, x2, y2) := box zp in
                    shape img = [y2 - y1; x2 - x1; 3]))
      by (intros name zp H; apply Hres; by right).
    split.
    + intros Hfit.
      pose proof (Hfit n z ltac:(left)) as Hfit0. rewrite Hb in Hfit0.
      destruct (Hok Hfit0) as (org & color & El). rewrite El, bind_Ok.
      destruct (IH Htail_sub Htail_res (drawn ++ [Paste x1 y1 img b; PutText n org 1 color 2]))
        as [IHok _].
      destruct IHok as (drawn' & E & Hpre & Hpaste).
      { intros name zp H. apply (Hfit name zp). by right. }
      exists drawn'. split; [exact E|]. split.
      * intros c Hc. apply Hpre. apply elem_of_app. by left.
      * intros name zp img' b' H Hi' Hl'.
        apply elem_of_cons in H as [H|H].
        -- injection H as -> ->. rewrite Hb.
           assert (img' = img) as -> by congruence.
           assert (b' = b) as -> by congruence.
           apply Hpre. apply elem_of_app. right. left.
        -- by apply (Hpaste name zp).
    + intros (name & zp & H & Hout).
      destruct (Z_le_gt_dec y2 frame_rows) as [Hr|Hr];
        [destruct (Z_le_gt_dec x2 frame_cols) as [Hc|Hc]|].
      * destruct (Hok (conj Hr Hc)) as (org & color & El). rewrite El, bind_Ok.
        destruct (IH Htail_sub Htail_res (drawn ++ [Paste x1 y1 img b; PutText n org 1 color 2]))
          as [_ IHbad].
        apply IHbad. apply elem_of_cons in H as [H|H].
        -- injection H as -> ->. rewrite Hb in Hout. lia.
        -- by exists name, zp.
      * rewrite Hbad by lia. reflexivity.
      * rewrite Hbad by lia. reflexivity.
Qed.

Lemma render_drum_kit_outcome
    (text_width_of : string -> Z) (drum_images : gmap string ndarray)
    (locks : gmap string bool) (frame_rows frame_cols : Z) (drawn : list draw_call) :
  (forall name zp, (name, zp) ∈ drum_zones ->
     exists img,
       drum_images !! name = Some img
       /\ (let '(x1, y1, x2, y2) := box zp in shape img = [y2 - y1; x2 - x1; 3])) ->
  locks_cover_zones locks ->
  let frame := {| canvas_shape := [frame_rows; frame_cols; 3]; calls := drawn |} in
  (WINDOW_HEIGHT <= frame_rows /\ WINDOW_WIDTH <= frame_cols ->
     exists frame',
       render_drum_kit_interface text_width_of drum_images locks frame = Ok frame'
       /\ canvas_shape frame' = [frame_rows; frame_cols; 3]
       /\ (forall c, c ∈ drawn -> c ∈ calls frame')
       /\ (forall name zp img b,
             (name, zp) ∈ drum_zones ->
             drum_images !! name = Some img -> locks !! name = Some b ->
             let '(x1, y1, _, _) := box zp in Paste x1 y1 img b ∈ calls frame'))
  /\ (frame_rows < WINDOW_HEIGHT \/ frame_cols < WINDOW_WIDTH ->
        render_drum_kit_interface text_width_of drum_images locks frame
        = Raise ValueError).
Proof.
  intros Himg Hcov frame. subst frame. unfold render_drum_kit_interface.
  destruct (render_pads_loop text_width_of drum_images locks frame_rows frame_cols
              drum_zones (fun e H => H)) with (drawn := drawn) as [Hok Hbad].
  { intros name zp Hz. destruct (Himg name zp Hz) as (img & Hi & Hs).
    destruct (Hcov name (elem_of_keys _ _ _ Hz)) as [b Hb].
    by exists img, b. }
  split.
  - intros [Hr Hc].
    destruct Hok as (drawn' & E & Hpre & Hpaste).
    { intros name zp Hz. pose proof (zone_sizes name zp Hz) as Hsz.
      destruct (box zp) as [[[x1 y1] x2] y2]. lia. }
    rewrite E, bind_Ok. eexists. split; [reflexivity|].
    split; [reflexivity|]. unfold draw. simpl. split.
    + intros c Hin. apply elem_of_app. left. by apply Hpre.
    + intros name zp img b Hz Hi Hl.
      specialize (Hpaste name zp img b Hz Hi Hl).
      destruct (box zp) as [[[x1 y1] x2] y2].
      apply elem_of_app. by left.
  - intros Hsmall. rewrite Hbad; [reflexivity|].
    unfold WINDOW_HEIGHT, WINDOW_WIDTH in Hsmall.
    destruct Hsmall as [Hr|Hc].
    + exists "Kick",
        {| box := (0, 380, 128, 480); strike_y := None; is_crash := false |}.
      split; [rewrite drum_zones_eq; list_member|]. simpl. lia.
    + exists "Tom2",
        {| box := (512, 380, 640, 480); strike_y := None; is_crash := false |}.
      split; [rewrite drum_zones_eq; list_member|]. simpl. lia.
Qed.

(** X13: drawing the drum kit on a three channel frame, with the preloaded
    pad images and a lock flag for every pad: if the frame has at least
    [WINDOW_HEIGHT] rows and [WINDOW_WIDTH] columns, every pad image is pasted
    at the corner of its pad, tinted exactly when the pad is locked, and what
    was drawn before stays; on any smaller frame the drawing raises
    [ValueError]. *)
Theorem drum_kit_needs_a_frame_of_window_size
    (text_width_of : string -> Z) (drum_images : gmap string ndarray)
    (locks : gmap string bool) (frame_rows frame_cols : Z) (drawn : list draw_call) :
  (forall name zp, (name, zp) ∈ drum_zones ->
     exists img,
       drum_images !! name = Some img
       /\ (let '(x1, y1, x2, y2) := box zp in shape img = [y2 - y1; x2 - x1; 3])) ->
  locks_cover_zones locks ->
  let frame := {| canvas_shape := [frame_rows; frame_cols; 3]; calls := drawn |} in
  (WINDOW_HEIGHT <= frame_rows /\ WINDOW_WIDTH <= frame_cols ->
     exists frame',
       render_drum_kit_interface text_width_of drum_images locks frame = Ok frame'
       /\ canvas_shape frame' = [frame_rows; frame_cols; 3]
       /\ (forall c, c ∈ drawn -> c ∈ calls frame')
       /\ (forall name zp img b,
             (name, zp) ∈ drum_zones ->
             drum_images !! name = Some img -> locks !! name = Some b ->
             let '(x1, y1, _, _) := box zp in Paste x1 y1 img b ∈ calls frame'))
  /\ (frame_rows < WINDOW_HEIGHT \/ frame_cols < WINDOW_WIDTH ->
        render_drum_kit_interface text_width_of drum_images locks frame
        = Raise ValueError).
Proof. apply render_drum_kit_outcome. Qed.

Lemma render_pads_only_paste_pads text_width_of drum_images locks
    frame_rows frame_cols zones :
  (forall e, e ∈ zones -> e ∈ drum_zones) ->
  (forall name zp, (name, zp) ∈ zones ->
     exists img b,
       drum_images !! name = Some img /\ locks !! name = Some b
       /\ (let '(x1, y1, x2, y2) := box zp in shape img = [y2 - y1; x2 - x1; 3])) ->
  forall drawn frame',
    for_each zones (render_pad text_width_of drum_images locks)
      {| canvas_shape := [frame_rows; frame_cols; 3]; calls := drawn |} = Ok frame' ->
    forall x y img b,
      Paste x y img b ∈ calls frame' ->
      Paste x y img b ∈ drawn
      \/ exists name zp,
           (name, zp) ∈ zones
           /\ drum_images !! name = Some img /\ locks !! name = Some b
           /\ (let '(x1, y1, _, _) := box zp in x = x1 /\ y = y1).
Proof.
  induction zones as [|[n z] zones IH]; intros Hsub Hres drawn frame' E x y img b Hp.
  - simpl in E. injection E as <-. by left.
  - assert (Hz : (n, z) ∈ drum_zones) by (apply Hsub; left).
    destruct (Hres n z ltac:(left)) as (img0 & b0 & Hi & Hl & Hs).
    pose proof (render_pad_step text_width_of drum_images locks
                  frame_rows frame_cols drawn n z img0 b0 Hz Hi Hs Hl) as Hstep.
    cbv zeta in Hstep. rewrite for_each_cons in E. revert Hs Hstep.
    destruct (box z) as [[[x1 y1] x2] y2] eqn:Hb.
    intros Hs [Hok Hbad].
    destruct (Z_le_gt_dec y2 frame_rows) as [Hr|Hr];
      [destruct (Z_le_gt_dec x2 frame_cols) as [Hc|Hc]|];
      [|rewrite Hbad in E by lia; discriminate E
       |rewrite Hbad in E by lia; discriminate E].
    destruct (Hok (conj Hr Hc)) as (org & color & El).
    rewrite El, bind_Ok in E.
    destruct (IH (fun e He => Hsub e ltac:(by right))
                 (fun name zp H => Hres name zp ltac:(by right))
                 _ frame' E x y img b Hp) as [Hd | (name & zp & H & H')].
    + apply elem_of_app in Hd as [Hd|Hd]; [by left|].
      apply elem_of_cons in Hd as [Hd|Hd].
      * injection Hd as -> -> -> ->. right. exists n, z.
        split; [left|]. rewrite Hb. done.
      * apply list_elem_of_singleton in Hd. discriminate Hd.
    + right. exists name, zp. split; [by right | exact H'].
Qed.

Lemma drum_kit_needs_a_frame_of_window_size_witness :
  let drum_images :=
    match @preload_drum_images unreadable_disk with
    | Ok images => images
    | Raise _ => ∅
    end in
  render_drum_kit_interface (fun _ => 80) drum_images initial_locks
    {| canvas_shape := [240; 320; 3]; calls := [] |}
  = Raise ValueError.
Proof.
  intros drum_images.
  destruct (drum_kit_needs_a_frame_of_window_size (fun _ => 80) drum_images
              initial_locks 240 320 []) as [_ H].
  - intros name zp Hz. zone_cases Hz; eexists; split;
      first [ by vm_compute | reflexivity ].
  - exact initial_locks_cover.
  - apply H. left. unfold WINDOW_HEIGHT. lia.
Defined.

(* ===================================================================== *)
(** ** The menu screen *)
(* ===================================================================== *)

Lemma render_buttons_keep text_width_of buttons : forall frame c,
  c ∈ calls frame ->
  c ∈ calls (foldl (render_button text_width_of) frame buttons).
Proof.
  induction buttons as [|[key [[[[[x1 y1] x2] y2] label] action]] buttons IH];
    intros frame c Hc; [exact Hc|].
  simpl. apply IH. unfold draw. simpl.
  repeat (apply elem_of_app; left). exact Hc.
Qed.

Lemma render_buttons_draw text_width_of buttons key x1 y1 x2 y2 label action :
  (key, (x1, y1, x2, y2, label, action)) ∈ buttons ->
  forall frame,
    PutText label (x1 + (x2 - x1) / 2 - text_width_of label / 2, y2 - 25)
            1 (20, 20, 20) 2
      ∈ calls (foldl (render_button text_width_of) frame buttons)
    /\ Rectangle (x1, y1) (x2, y2) (255, 255, 255) 3
         ∈ calls (foldl (render_button text_width_of) frame buttons).
Proof.
  induction buttons as [|b buttons IH]; intros Hin frame.
  - by apply elem_of_nil in Hin.
  - apply elem_of_cons in Hin as [<-|Hin].
    + simpl. split; apply render_buttons_keep; unfold draw; simpl.
      * apply elem_of_app. right. left.
      * apply elem_of_app. left. apply elem_of_app. right. left.
    + simpl. by apply IH.
Qed.

(** X14: on the menu screen every button gets its border and its label, and
    the label is centred in the button to within one pixel, whatever width
    the font reports for it: the margins left and right of the text differ by
    at most one, and the text baseline lies inside the button. *)
Theorem menu_labels_are_centred (text_width_of : string -> Z) (frame : canvas)
    (key label : string) (x1 y1 x2 y2 action : Z) :
  (key, (x1, y1, x2, y2, label, action)) ∈ menu_buttons ->
  exists text_x,
    PutText label (text_x, y2 - 25) 1 (20, 20, 20) 2
      ∈ calls (render_main_menu text_width_of frame)
    /\ Rectangle (x1, y1) (x2, y2) (255, 255, 255) 3
         ∈ calls (render_main_menu text_width_of frame)
    /\ -1 <= (text_x - x1) - (x2 - (text_x + text_width_of label)) <= 1
    /\ y1 < y2 - 25 < y2
    /\ 0 <= x1 /\ x2 <= WINDOW_WIDTH /\ 0 <= y1 /\ y2 <= WINDOW_HEIGHT.
Proof.
  intros Hin. exists (x1 + (x2 - x1) / 2 - text_width_of label / 2).
  unfold render_main_menu.
  destruct (render_buttons_draw text_width_of menu_buttons
              key x1 y1 x2 y2 label action Hin
              (draw (draw frame
                       (Rectangle (0, 0) (WINDOW_WIDTH, WINDOW_HEIGHT)
                                  (20, 20, 20) (-1)))
                    (PutText "AIR DRUM KIT"
                             (WINDOW_WIDTH / 2 - 150, WINDOW_HEIGHT / 2 - 150)
                             (3 # 2) (0, 255, 255) 3))) as [Ht Hr].
  split; [exact Ht|]. split; [exact Hr|].
  split.
  - pose proof (Z.div_mod (x2 - x1) 2 ltac:(lia)).
    pose proof (Z.mod_pos_bound (x2 - x1) 2 ltac:(lia)).
    pose proof (Z.div_mod (text_width_of label) 2 ltac:(lia)).
    pose proof (Z.mod_pos_bound (text_width_of label) 2 ltac:(lia)).
    lia.
  - unfold menu_buttons, WINDOW_WIDTH, WINDOW_HEIGHT in *.
    repeat (apply elem_of_cons in Hin as [Hin|Hin];
            [injection Hin as ? ? ? ? ? ? ?; subst;
             change (640 / 2) with 320; change (480 / 2) with 240; lia|]).
    by apply elem_of_nil in Hin.
Qed.

Lemma menu_labels_are_centred_witness :
  exists text_x,
    PutText "EXIT (Q)" (text_x, 405) 1 (20, 20, 20) 2
      ∈ calls (render_main_menu (fun _ => 131)
                 {| canvas_shape := [480; 640; 3]; calls := [] |})
    /\ -1 <= (text_x - 170) - (470 - (text_x + 131)) <= 1.
Proof.
  destruct (menu_labels_are_centred (fun _ => 131)
              {| canvas_shape := [480; 640; 3]; calls := [] |}
              "EXIT" "EXIT (Q)" 170 360 470 430 (-2))
    as (text_x & Ht & _ & Hc & _).
  - unfold menu_buttons. list_member.
  - exists text_x. split; [exact Ht | exact Hc].
Defined.

(** X5: after a play frame, on a frame of at least the window size and with
    pad-sized images, the renderer pastes every pad tinted exactly when the
    pad is hit in that frame: each pad's image is pasted at the pad's corner
    with the frame's hit flag as tint, and every paste on the frame is such a
    paste. *)
Theorem tinted_pads_are_the_hit_pads (text_width_of : string -> Z)
    (drum_images : gmap string ndarray) (locks : gmap string bool)
    (cs : list contour) (rows cols : Z) :
  locks_cover_zones locks ->
  images_fit_pads drum_images ->
  WINDOW_HEIGHT <= rows -> WINDOW_WIDTH <= cols ->
  exists st frame',
    play_frame locks cs = Ok st
    /\ render_drum_kit_interface text_width_of drum_images (sound_is_locked st)
         {| canvas_shape := [rows; cols; 3];
            calls := map circle_call (circles st) |} = Ok frame'
    /\ (forall name zp img,
          (name, zp) ∈ drum_zones -> drum_images !! name = Some img ->
          let '(x1, y1, _, _) := box zp in
          Paste x1 y1 img (is_hit st name) ∈ calls frame')
    /\ (forall x y img b,
          Paste x y img b ∈ calls frame' ->
          exists name zp,
            (name, zp) ∈ drum_zones /\ drum_images !! name = Some img
            /\ b = is_hit st name
            /\ (let '(x1, y1, _, _) := box zp in x = x1 /\ y = y1)).
Proof.
  intros Hcov Himg Hr Hc.
  destruct (play_frame_spec locks cs Hcov) as (st & E & _ & Hin & _).
  pose proof (play_frame_locks_cover _ _ _ Hcov E) as Hcov'.
  assert (Hlock : forall name, name ∈ keys drum_zones ->
            sound_is_locked st !! name = Some (is_hit st name)).
  { intros name Hn. rewrite (is_hit_frame locks cs st name Hcov E Hn).
    by destruct (Hin name Hn) as (_ & -> & _). }
  assert (Hres : forall name zp, (name, zp) ∈ drum_zones ->
            exists img b,
              drum_images !! name = Some img /\ sound_is_locked st !! name = Some b
              /\ (let '(x1, y1, x2, y2) := box zp in
                  shape img = [y2 - y1; x2 - x1; 3])).
  { intros name zp Hz. destruct (Himg name zp Hz) as (img & Hi & Hs).
    exists img, (is_hit st name). split; [exact Hi|]. split; [|exact Hs].
    apply Hlock. by eapply elem_of_keys. }
  destruct (render_pads_loop text_width_of drum_images (sound_is_locked st)
              rows cols drum_zones (fun e H => H) Hres)
    with (drawn := map circle_call (circles st)) as [Hok _].
  destruct Hok as (drawn' & Er & _ & Hpaste).
  { intros name zp Hz. pose proof (zone_sizes name zp Hz) as Hsz.
    destruct (box zp) as [[[x1 y1] x2] y2]. lia. }
  exists st. eexists. split; [exact E|].
  unfold render_drum_kit_interface. rewrite Er, bind_Ok.
  split; [reflexivity|]. unfold draw. simpl. split.
  - intros name zp img Hz Hi.
    specialize (Hpaste name zp img (is_hit st name) Hz Hi
                  (Hlock name (elem_of_keys _ _ _ Hz))).
    destruct (box zp) as [[[x1 y1] x2] y2]. apply elem_of_app. by left.
  - intros x y img b Hp. apply elem_of_app in Hp as [Hp|Hp].
    + destruct (render_pads_only_paste_pads text_width_of drum_images
                  (sound_is_locked st) rows cols drum_zones (fun e H => H) Hres
                  _ _ Er x y img b Hp) as [Hd | (name & zp & Hz & Hi & Hl & Hxy)].
      * apply list_elem_of_fmap in Hd as (p & Hd & _). discriminate Hd.
      * exists name, zp. split; [exact Hz|]. split; [exact Hi|].
        split; [|exact Hxy].
        rewrite (Hlock name (elem_of_keys _ _ _ Hz)) in Hl. congruence.
    + apply list_elem_of_singleton in Hp. discriminate Hp.
Qed.

Lemma preload_fits (cv : OpenCV) :
  OpenCV_contract cv ->
  exists drum_images,
    preload_drum_images = Ok drum_images /\ images_fit_pads drum_images.
Proof.
  intros Hcv.
  destruct (preload_loop cv drum_zones Hcv (fun e H => H) keys_drum_zones_NoDup ∅)
    as (images & E & Hin & _).
  by exists images.
Qed.

Lemma placeholder_images_fit :
  images_fit_pads
    (match @preload_drum_images unreadable_disk with
     | Ok images => images
     | Raise _ => ∅
     end).
Proof.
  destruct (preload_fits unreadable_disk (model_operations_contract _))
    as (images & E & Hfit).
  by rewrite E.
Qed.

Lemma tinted_pads_are_the_hit_pads_witness :
  let drum_images :=
    match @preload_drum_images unreadable_disk with
    | Ok images => images
    | Raise _ => ∅
    end in
  exists st frame',
    play_frame initial_locks
      [ {| contourArea := 900; boundingRect := (180, 400, 30, 30) |} ] = Ok st
    /\ render_drum_kit_interface (fun _ => 80) drum_images (sound_is_locked st)
         {| canvas_shape := [480; 640; 3];
            calls := map circle_call (circles st) |} = Ok frame'
    /\ Paste 128 380 {| shape := [100; 128; 3];
                        data := Text Zeros "NO IMAGE" (14, 55) |} true
         ∈ calls frame'
    /\ Paste 0 380 {| shape := [100; 128; 3];
                      data := Text Zeros "NO IMAGE" (14, 55) |} false
         ∈ calls frame'.
Proof.
  intros drum_images.
  destruct (tinted_pads_are_the_hit_pads (fun _ => 80) drum_images initial_locks
              [ {| contourArea := 900; boundingRect := (180, 400, 30, 30) |} ]
              480 640 initial_locks_cover placeholder_images_fit)
    as (st & frame' & E & Er & Hp & _); [unfold WINDOW_HEIGHT; lia
                                        | unfold WINDOW_WIDTH; lia |].
  exists st, frame'. split; [exact E|]. split; [exact Er|].
  assert (Hsnare : is_hit st "Snare" = true)
    by (evaluate_from E; vm_compute; reflexivity).
  assert (Hkick : is_hit st "Kick" = false)
    by (evaluate_from E; vm_compute; reflexivity).
  split.
  - pose proof (Hp "Snare"
                  {| box := (128, 380, 256, 480); strike_y := None;
                     is_crash := false |}
                  {| shape := [100; 128; 3];
                     data := Text Zeros "NO IMAGE" (14, 55) |}) as H.
    rewrite Hsnare in H. apply H.
    + rewrite drum_zones_eq. list_member.
    + vm_compute. reflexivity.
  - pose proof (Hp "Kick"
                  {| box := (0, 380, 128, 480); strike_y := None;
                     is_crash := false |}
                  {| shape := [100; 128; 3];
                     data := Text Zeros "NO IMAGE" (14, 55) |}) as H.
    rewrite Hkick in H. apply H.
    + rewrite drum_zones_eq. list_member.
    + vm_compute. reflexivity.
Defined.

(* ===================================================================== *)
(** ** Keyboard dispatch and the main loop *)
(* ===================================================================== *)

Example menu_then_quit :
  main_loop (fun _ => 80) ∅ initial_app
    [ {| frame_captured := true; frame_rows := 480; frame_cols := 640;
         detected_contours := []; waitKey := -1 |};
      {| frame_captured := true; frame_rows := 480; frame_cols := 640;
         detected_contours := []; waitKey := 99 |};
      {| frame_captured := true; frame_rows := 480; frame_cols := 640;
         detected_contours := []; waitKey := 113 |} ]
  = Ok (Exited (set_menu initial_app true) 2).
Proof. vm_compute. reflexivity. Qed.

(** The play branch up to the key poll: the frame is processed, then the
    pads are drawn, which needs a frame of the window's size. *)
Lemma play_branch_outcome text_width_of drum_images s i :
  locks_cover_zones (app_locks s) ->
  images_fit_pads drum_images ->
  exists st,
    play_frame (app_locks s) (detected_contours i) = Ok st
    /\ locks_cover_zones (sound_is_locked st)
    /\ (frame_fits i ->
        exists frame',
          render_drum_kit_interface text_width_of drum_images (sound_is_locked st)
            {| canvas_shape := [frame_rows i; frame_cols i; 3];
               calls := map circle_call (circles st) |} = Ok frame')
    /\ (frame_too_small i ->
        render_drum_kit_interface text_width_of drum_images (sound_is_locked st)
          {| canvas_shape := [frame_rows i; frame_cols i; 3];
             calls := map circle_call (circles st) |} = Raise ValueError).
Proof.
  intros Hcov Himg.
  destruct (play_frame_spec (app_locks s) (detected_contours i) Hcov)
    as (st & E & _).
  pose proof (play_frame_locks_cover _ _ _ Hcov E) as Hcov'.
  destruct (render_drum_kit_outcome text_width_of drum_images (sound_is_locked st)
              (frame_rows i) (frame_cols i) (map circle_call (circles st))
              Himg Hcov') as [Hok Hbad].
  exists st. split; [exact E|]. split; [exact Hcov'|]. split.
  - intros Hfit. destruct (Hok Hfit) as (frame' & Er & _). by exists frame'.
  - exact Hbad.
Qed.

Lemma frame_fits_or_too_small i : frame_fits i \/ frame_too_small i.
Proof. unfold frame_fits, frame_too_small. lia. Qed.

Lemma frame_not_both i : frame_fits i -> frame_too_small i -> False.
Proof. unfold frame_fits, frame_too_small. lia. Qed.

Ltac credits_flag Hst :=
  simpl; rewrite ?Hst; intros; solve [done | congruence | auto].

(** Every way one pass through the loop body can end. *)
Lemma loop_body_outcome text_width_of drum_images s i :
  locks_cover_zones (app_locks s) ->
  images_fit_pads drum_images ->
  match loop_body text_width_of drum_images s i with
  | Ok (ctl, s', sounds) =>
      locks_cover_zones (app_locks s')
      /\ (credits_only_in_menu s -> credits_only_in_menu s')
      /\ (ctl = BreakLoop <-> stops_loop i)
  | Raise e =>
      e = ValueError
      /\ frame_captured i = true
      /\ current_app_state s = STATE_PLAY
      /\ frame_too_small i
  end.
Proof.
  intros Hcov Himg. unfold loop_body, stops_loop, credits_only_in_menu.
  destruct (frame_captured i) eqn:Hcap; simpl negb; cbv iota.
  2: { split; [exact Hcov|]. split; [done|]. split; auto. }
  destruct (current_app_state s) eqn:Hst.
  - destruct (Z.land (waitKey i) 255 =? ord "p") eqn:Hp.
    { apply Z.eqb_eq in Hp. rewrite Hp. split; [exact Hcov|].
      split; [credits_flag Hst|]. split; [discriminate|]. intros [?|?]; discriminate. }
    destruct (Z.land (waitKey i) 255 =? ord "c") eqn:Hc.
    { apply Z.eqb_eq in Hc. rewrite Hc. split; [exact Hcov|].
      split; [credits_flag Hst|]. split; [discriminate|].
      intros [?|?]; discriminate. }
    destruct (Z.land (waitKey i) 255 =? ord "b") eqn:Hb.
    { apply Z.eqb_eq in Hb. rewrite Hb. split; [exact Hcov|].
      split; [credits_flag Hst|]. split; [discriminate|].
      intros [?|?]; discriminate. }
    destruct (Z.land (waitKey i) 255 =? ord "q") eqn:Hq.
    { apply Z.eqb_eq in Hq. split; [exact Hcov|]. split; [credits_flag Hst|].
      split; auto. }
    apply Z.eqb_neq in Hq. split; [exact Hcov|]. split; [credits_flag Hst|].
    split; [discriminate|]. intros [?|?]; [discriminate|contradiction].
  - destruct (play_branch_outcome text_width_of drum_images s i Hcov Himg)
      as (st & E & Hcov' & Hok & Hbad).
    rewrite E, bind_Ok. cbv zeta.
    destruct (frame_fits_or_too_small i) as [Hfit|Hsmall].
    + destruct (Hok Hfit) as [frame' Er]. rewrite Er, bind_Ok.
      destruct (Z.land (waitKey i) 255 =? ord "b") eqn:Hb.
      { apply Z.eqb_eq in Hb. rewrite Hb. split; [exact Hcov'|].
        split; [credits_flag Hst|]. split; [discriminate|].
        intros [?|?]; discriminate. }
      destruct (Z.land (waitKey i) 255 =? ord "q") eqn:Hq.
      { apply Z.eqb_eq in Hq. split; [exact Hcov'|].
        split; [credits_flag Hst|]. split; auto. }
      apply Z.eqb_neq in Hq. split; [exact Hcov'|].
      split; [credits_flag Hst|]. split; [discriminate|].
      intros [?|?]; [discriminate|contradiction].
    + rewrite (Hbad Hsmall). simpl. done.
Qed.

(** Every way a run over finitely many iterations can end. *)
Lemma main_loop_outcome text_width_of drum_images inputs : forall s,
  locks_cover_zones (app_locks s) ->
  images_fit_pads drum_images ->
  match main_loop text_width_of drum_images s inputs with
  | Ok status =>
      locks_cover_zones (app_locks (final_state status))
      /\ (credits_only_in_menu s -> credits_only_in_menu (final_state status))
      /\ match status with
         | StillRunning _ => Forall goes_on inputs
         | Exited _ n =>
             (exists i, inputs !! n = Some i /\ stops_loop i)
             /\ Forall goes_on (take n inputs)
         end
  | Raise e =>
      e = ValueError
      /\ exists n i,
           inputs !! n = Some i
           /\ frame_captured i = true /\ frame_too_small i
           /\ Forall goes_on (take n inputs)
  end.
Proof.
  induction inputs as [|i inputs IH]; intros s Hcov Himg.
  - simpl. split; [exact Hcov|]. split; [done|]. constructor.
  - pose proof (loop_body_outcome text_width_of drum_images s i Hcov Himg)
      as Hbody.
    simpl main_loop.
    destruct (loop_body text_width_of drum_images s i)
      as [[[ctl s'] sounds]|e]; simpl.
    + destruct Hbody as (Hcov' & Hinv' & Hctl). destruct ctl.
      * assert (Hgo : goes_on i).
        { unfold goes_on, stops_loop in *. split.
          - destruct (frame_captured i) eqn:Hcap; [done|].
            assert (Next = BreakLoop) by (apply Hctl; by left). discriminate.
          - intros Hq.
            assert (Next = BreakLoop) by (apply Hctl; by right). discriminate. }
        specialize (IH s' Hcov' Himg).
        destruct (main_loop text_width_of drum_images s' inputs)
          as [[sf|sf n]|e]; simpl in IH |- *.
        -- destruct IH as (Hc & Hi & Hall). split; [exact Hc|].
           split; [auto|]. by constructor.
        -- destruct IH as (Hc & Hi & Hex & Hpre). split; [exact Hc|].
           split; [auto|]. split; [exact Hex|]. by constructor.
        -- destruct IH as (-> & n & j & Hj & Hcap & Hsmall & Hpre).
           split; [reflexivity|]. exists (S n), j. simpl.
           split; [exact Hj|]. split; [exact Hcap|]. split; [exact Hsmall|].
           by constructor.
      * split; [exact Hcov'|]. split; [exact Hinv'|]. split.
        -- exists i. split; [reflexivity|]. by apply Hctl.
        -- constructor.
    + destruct Hbody as (-> & Hcap & _ & Hsmall). split; [reflexivity|].
      exists 0%nat, i. simpl. split; [reflexivity|]. split; [exact Hcap|].
      split; [exact Hsmall|]. constructor.
Qed.











(* ===================================================================== *)
(** ** More on the main loop *)
(* ===================================================================== *)

Lemma land_255_period k m : Z.land (k + 256 * m) 255 = Z.land k 255.
Proof.
  change 255 with (Z.ones 8). rewrite !Z.land_ones by lia.
  change (2 ^ 8) with 256. rewrite Z.mul_comm. apply Z_mod_plus_full.
Qed.

(** X15: an iteration depends on the polled key only through its low eight
    bits: key codes that differ by a multiple of 256 (modifier flags in the
    high bits) are handled alike, in either state. *)
Theorem key_codes_are_read_modulo_256 (text_width_of : string -> Z)
    (drum_images : gmap string ndarray) (s : app) (captured : bool)
    (rows cols : Z) (cs : list contour) (k m : Z) :
  loop_body text_width_of drum_images s
    {| frame_captured := captured; frame_rows := rows; frame_cols := cols;
       detected_contours := cs; waitKey := k + 256 * m |}
  = loop_body text_width_of drum_images s
      {| frame_captured := captured; frame_rows := rows; frame_cols := cols;
         detected_contours := cs; waitKey := k |}.
Proof.
  unfold loop_body.
  cbn [frame_captured frame_rows frame_cols detected_contours waitKey].
  by rewrite land_255_period.
Qed.

(** X16: in the menu an iteration never raises, whatever the lock table
    holds, starts no sample and leaves the lock table as it is, so the locks
    taken in the play state are still held when play is resumed. *)
Theorem menu_keeps_the_locks (text_width_of : string -> Z)
    (drum_images : gmap string ndarray) (s : app) (i : iteration_input) :
  current_app_state s = STATE_MENU ->
  exists ctl s',
    loop_body text_width_of drum_images s i = Ok (ctl, s', [])
    /\ app_locks s' = app_locks s.
Proof.
  intros Hmenu. unfold loop_body. rewrite Hmenu.
  destruct (frame_captured i); simpl negb; cbv iota;
    [|by eexists _, _].
  repeat match goal with
         | |- context [if ?c then _ else _] => destruct c
         end; by eexists _, _.
Qed.

Lemma menu_keeps_the_locks_witness :
  exists ctl s',
    loop_body (fun _ => 80) ∅
      {| current_app_state := STATE_MENU;
         showing_credits := false;
         app_locks := <["Snare" := true]> initial_locks |}
      {| frame_captured := true; frame_rows := 240; frame_cols := 320;
         detected_contours := []; waitKey := 112 |}
    = Ok (ctl, s', [])
    /\ app_locks s' = <["Snare" := true]> initial_locks.
Proof.
  exact (menu_keeps_the_locks (fun _ => 80) ∅
           {| current_app_state := STATE_MENU;
              showing_credits := false;
              app_locks := <["Snare" := true]> initial_locks |}
           {| frame_captured := true; frame_rows := 240; frame_cols := 320;
              detected_contours := []; waitKey := 112 |}
           eq_refl).
Defined.



Lemma goes_on_not_stops (l : list iteration_input) :
  Forall goes_on l -> Forall (fun i => ~ stops_loop i) l.
Proof.
  intros Hl. eapply Forall_impl; [exact Hl|].
  intros i [Hc Hq] [H|H]; congruence.
Qed.

(** X19: with pad-sized images, from a state whose lock table covers the
    pads, and with every captured frame up to iteration [n] of at least 480
    rows and 640 columns: the loop is left during iteration [n] exactly when
    [n] is the first iteration whose frame could not be read or whose key is
    [q]; such an iteration always ends the loop, at once. *)
Theorem loop_is_left_at_the_first_stop (text_width_of : string -> Z)
    (drum_images : gmap string ndarray) (s : app)
    (inputs : list iteration_input) (n : nat) :
  locks_cover_zones (app_locks s) ->
  images_fit_pads drum_images ->
  Forall (fun i => frame_captured i = true -> frame_fits i)
         (take (S n) inputs) ->
  (exists sf, main_loop text_width_of drum_images s inputs = Ok (Exited sf n))
  <-> (exists i, inputs !! n = Some i /\ stops_loop i)
      /\ Forall (fun i => ~ stops_loop i) (take n inputs).
Proof.
  intros Hcov Himg Hbig.
  pose proof (main_loop_outcome text_width_of drum_images inputs s Hcov Himg)
    as Hout.
  split.
  - intros [sf Esf]. rewrite Esf in Hout.
    destruct Hout as (_ & _ & Hex & Hpre). split; [exact Hex|].
    by apply goes_on_not_stops.
  - intros [(i & Hi & Hstop) Hpre].
    destruct (main_loop text_width_of drum_images s inputs)
      as [[sr|sf m]|e].
    + exfalso. destruct Hout as (_ & _ & Hs).
      apply goes_on_not_stops in Hs. rewrite Forall_forall in Hs.
      apply (Hs i); [|exact Hstop]. by apply (list_elem_of_lookup_2 _ n).
    + destruct Hout as (_ & _ & (j & Hj & Hjstop) & Hpre').
      apply goes_on_not_stops in Hpre'.
      destruct (lt_eq_lt_dec m n) as [[Hlt|Heq]|Hgt].
      * exfalso. rewrite Forall_forall in Hpre. apply (Hpre j); [|exact Hjstop].
        apply (list_elem_of_lookup_2 _ m). rewrite lookup_take_lt by lia. exact Hj.
      * subst m. by exists sf.
      * exfalso. rewrite Forall_forall in Hpre'. apply (Hpre' i); [|exact Hstop].
        apply (list_elem_of_lookup_2 _ n). rewrite lookup_take_lt by lia. exact Hi.
    + exfalso. destruct Hout as (_ & m & j & Hj & Hcap & Hsmall & Hpre').
      apply goes_on_not_stops in Hpre'.
      destruct (le_lt_dec m n) as [Hle|Hgt].
      * rewrite Forall_forall in Hbig. apply (frame_not_both j); [|exact Hsmall].
        apply Hbig; [|exact Hcap].
        apply (list_elem_of_lookup_2 _ m). rewrite lookup_take_lt by lia. exact Hj.
      * rewrite Forall_forall in Hpre'. apply (Hpre' i); [|exact Hstop].
        apply (list_elem_of_lookup_2 _ n). rewrite lookup_take_lt by lia. exact Hi.
Qed.

Lemma loop_is_left_at_the_first_stop_witness :
  exists sf,
    main_loop (fun _ => 80)
      (match @preload_drum_images unreadable_disk with
       | Ok images => images
       | Raise _ => ∅
       end)
      initial_app
      [ {| frame_captured := true; frame_rows := 480; frame_cols := 640;
           detected_contours := []; waitKey := 112 |};
        {| frame_captured := true; frame_rows := 480; frame_cols := 640;
           detected_contours := []; waitKey := 1048689 |};
        {| frame_captured := true; frame_rows := 240; frame_cols := 320;
           detected_contours := []; waitKey := -1 |} ]
    = Ok (Exited sf 1).
Proof.
  apply (loop_is_left_at_the_first_stop (fun _ => 80) _ initial_app
           [ {| frame_captured := true; frame_rows := 480; frame_cols := 640;
                detected_contours := []; waitKey := 112 |};
             {| frame_captured := true; frame_rows := 480; frame_cols := 640;
                detected_contours := []; waitKey := 1048689 |};
             {| frame_captured := true; frame_rows := 240; frame_cols := 320;
                detected_contours := []; waitKey := -1 |} ]
           1 initial_locks_cover placeholder_images_fit).
  - repeat constructor; simpl; unfold WINDOW_HEIGHT, WINDOW_WIDTH; lia.
  - split.
    + eexists. split; [reflexivity|]. right. reflexivity.
    + constructor; [|constructor]. intros [H|H]; discriminate.
Defined.
